(** * MahjongUtils: the unified drag-and-drop / touch layer

    A shallow embedding of [MahjongUtils.getEventCoordinates],
    [MahjongUtils.getElementFromPoint], [MahjongUtils.setupDragAndDrop]
    (with the closures it creates) and [MahjongUtils.removeDragAndDrop],
    followed by the properties of the drag session and of the listener
    registry.

    Modelling conventions.
    - A DOM element is a reference ([ElemId]); the document is a store
      [Dom] from references to the properties the code reads or writes,
      and to what its writes through [element.style] change besides: the
      priority of the inline [display] declaration and the text of the
      [style] attribute.
    - The closure variables [isDragging], [draggedElement],
      [currentDropTarget] and [dragData] form the record [Session].
    - The JS object [dragData] is a finite map of its own string
      properties, over the members it inherits from [Object.prototype];
      [Object.prototype] is the one of the language, which no script has
      changed.
    - Caller-supplied handlers are functions with an identity (for
      [addEventListener]) and a behaviour: given their argument, the
      document and the caller's own state, they return the new document,
      the new caller state, the [setData] calls they made on the event and
      whether they threw.  They use the event they receive only during the
      call and do not dispatch native events themselves.  The [handlers]
      object is not mutated after it is passed to [setupDragAndDrop].
    - [document.elementFromPoint] is the browser's; it is a parameter.
    - Elements are HTML elements ([tagName] in upper case). *)

From Stdlib Require Import ZArith Lia.
From stdpp Require Import base gmap strings list pretty.

Open Scope Z_scope.

(** ** JavaScript values returned by the payload accessors *)

Inductive JsVal :=
| JUndefined
| JNull
| JStr (s : string)
(** the member [name] of [Object.prototype]: a function, or for
    ['__proto__'] the prototype object *)
| JInherited (name : string).

Definition truthy (v : JsVal) : bool :=
  match v with
  | JStr s => negb (bool_decide (s = ""))
  | JInherited _ => true
  | JUndefined | JNull => false
  end.

(** [a || b] *)
Definition js_or (a b : JsVal) : JsVal := if truthy a then a else b.

(** The property names of [Object.prototype]. *)
Definition Object_prototype : list string :=
  ["constructor"; "__defineGetter__"; "__defineSetter__"; "hasOwnProperty";
   "__lookupGetter__"; "__lookupSetter__"; "isPrototypeOf";
   "propertyIsEnumerable"; "toString"; "valueOf"; "__proto__";
   "toLocaleString"].

(** [obj[key]] on an object used as a map: the own property, else the
    member inherited from [Object.prototype], else [undefined]. *)
Definition js_get (obj : gmap string string) (key : string) : JsVal :=
  match obj !! key with
  | Some v => JStr v
  | None =>
    if bool_decide (key ∈ Object_prototype) then JInherited key
    else JUndefined
  end.

(** [obj[key] = value] for a string [value]: an own property is created
    or overwritten, except under ['__proto__'], where the inherited
    setter runs and ignores a value that is no object. *)
Definition js_set (obj : gmap string string) (key value : string)
  : gmap string string :=
  if bool_decide (key = "__proto__") then obj else <[key := value]> obj.

(** ** The document *)

Definition ElemId := nat.

(** The [style] attribute of an element, as far as its text goes. *)
Inductive StyleAttribute :=
(** the element has no [style] attribute *)
| StyleAbsent
(** the attribute holds the text the markup gave it *)
| StyleAsWritten
(** the attribute holds the serialization of the element's inline
    declarations, as every write through [element.style] leaves it; the
    text is empty when no declaration is left *)
| StyleSerialized.

Record Node := mkNode {
  tagName : string;
  draggable : bool;
  classList : list string;
  dataset : gmap string string;
  (** what [style.display] reads: the value of the inline [display]
      declaration, empty when there is none *)
  style_display : string;
  (** whether that declaration carries [!important] *)
  display_important : bool;
  style_attribute : StyleAttribute;
  (** the chain of [parentElement]s, nearest first *)
  ancestors : list ElemId
}.

Definition Dom := ElemId -> Node.

(** A write through [element.style] rewrites the [style] attribute. *)
Definition serialized (n : Node) : Node :=
  {| tagName := tagName n; draggable := draggable n;
     classList := classList n; dataset := dataset n;
     style_display := style_display n;
     display_important := display_important n;
     style_attribute := StyleSerialized; ancestors := ancestors n |}.

Definition write_display (v : string) (n : Node) : Node :=
  {| tagName := tagName n; draggable := draggable n;
     classList := classList n; dataset := dataset n;
     style_display := v; display_important := false;
     style_attribute := StyleSerialized; ancestors := ancestors n |}.

(** [element.style.display = v], for [v] empty or a value the property
    accepts (as ['none'] is, and whatever [style.display] read).  The
    empty string removes the declaration.  Any other value is set without
    priority.  The [style] attribute is rewritten when the declarations
    changed, and only then. *)
Definition style_set_display (v : string) (n : Node) : Node :=
  if bool_decide (v = "")
  then if bool_decide (style_display n = "") then n else write_display "" n
  else if bool_decide (style_display n = v) && negb (display_important n)
       then n
       else write_display v n.

Definition set_display (e : ElemId) (v : string) (d : Dom) : Dom :=
  fun e' => if bool_decide (e' = e) then style_set_display v (d e) else d e'.

(** Two states of an element that differ at most in the priority of the
    inline [display] declaration and in the text of the [style]
    attribute. *)
Definition same_but_style_text (n n' : Node) : Prop :=
  tagName n' = tagName n ∧ draggable n' = draggable n
  ∧ classList n' = classList n ∧ dataset n' = dataset n
  ∧ style_display n' = style_display n ∧ ancestors n' = ancestors n.

(** A compound selector list, as far as this file uses them:
    type selectors, one class selector, one attribute selector. *)
Inductive Selector :=
| SelTag (upper : string)
| SelClass (c : string)
| SelData (key value : string).

Definition matches1 (n : Node) (s : Selector) : bool :=
  match s with
  | SelTag t => bool_decide (tagName n = t)
  | SelClass c => bool_decide (c ∈ classList n)
  | SelData k v => bool_decide (dataset n !! k = Some v)
  end.

Definition matches (sel : list Selector) (n : Node) : bool :=
  existsb (matches1 n) sel.

(** [e.closest(sel)]: the element itself or its nearest matching ancestor. *)
Definition closest (d : Dom) (sel : list Selector) (e : ElemId) : option ElemId :=
  List.find (fun a => matches sel (d a)) (e :: ancestors (d e)).

(** ['button, a, input'] *)
Definition sel_interactive : list Selector :=
  [SelTag "BUTTON"; SelTag "A"; SelTag "INPUT"].

(** ['.mahjong-tile, [data-drag-enabled="true"]'] *)
Definition sel_tile : list Selector :=
  [SelClass "mahjong-tile"; SelData "dragEnabled" "true"].

(** ** Native events *)

Inductive EventType :=
| E_dragstart | E_dragover | E_dragleave | E_drop | E_dragend
| E_touchstart | E_touchmove | E_touchend | E_touchcancel.

Global Instance EventType_eq_dec : EqDecision EventType.
Proof. solve_decision. Defined.

Record Touch := mkTouch { t_clientX : Z; t_clientY : Z }.

Record NativeEvent := mkEvent {
  ev_type : EventType;
  ev_target : ElemId;
  touches : list Touch;
  changedTouches : list Touch;
  ev_clientX : Z;
  ev_clientY : Z;
  (** whether [event.dataTransfer] exists (drag events) *)
  ev_dataTransfer : bool
}.

(** [MahjongUtils.getEventCoordinates] *)
Definition getEventCoordinates (event : NativeEvent) : Z * Z :=
  match touches event with
  | t :: _ => (t_clientX t, t_clientY t)
  | [] =>
    match changedTouches event with
    | t :: _ => (t_clientX t, t_clientY t)
    | [] => (ev_clientX event, ev_clientY event)
    end
  end.

(** ** What handlers receive *)

(** The object literals built by the closures.  [se_getData] is the
    [dataTransfer.getData] closure, evaluated on the state at dispatch;
    [se_setData] tells whether [dataTransfer.setData] exists. *)
Record SynEvent := mkSyn {
  se_type : EventType;
  se_target : option ElemId;
  se_coords : option (Z * Z);
  se_getData : option (string -> JsVal);
  se_setData : bool
}.

Inductive HandlerArg :=
| Native (ev : NativeEvent)
| Synthetic (se : SynEvent).

Inductive HandlerName := HDragStart | HDragOver | HDragLeave | HDrop | HDragEnd.

Global Instance HandlerName_eq_dec : EqDecision HandlerName.
Proof. solve_decision. Defined.

(** What the page observes of one native event. *)
Inductive Action :=
| APreventDefault
| ACall (h : HandlerName) (arg : HandlerArg).

Definition is_call (h : HandlerName) (a : Action) : bool :=
  match a with
  | ACall h' _ => bool_decide (h' = h)
  | APreventDefault => false
  end.

(** ** The drag session: the closure variables of [setupDragAndDrop] *)

Record Session := mkSession {
  isDragging : bool;
  draggedElement : option ElemId;
  currentDropTarget : option ElemId;
  dragData : gmap string string
}.

Definition emptySession : Session :=
  {| isDragging := false; draggedElement := None;
     currentDropTarget := None; dragData := ∅ |}.

(** ** Completions *)

Inductive Completion (A : Type) :=
| Normal (a : A)
| Throw.
Arguments Normal {A} a.
Arguments Throw {A}.

Definition is_normal {A} (c : Completion A) : bool :=
  match c with Normal _ => true | Throw => false end.

(** ** The closures of [setupDragAndDrop] *)

Section Core.

(** The caller's own state, which its handlers read and write. *)
Context {U : Type}.

(** [document.elementFromPoint] *)
Variable elementFromPoint : Dom -> Z -> Z -> option ElemId.

Record Reply := mkReply {
  r_dom : Dom;
  r_user : U;
  r_setData : list (string * string);
  r_throws : bool
}.

(** A function object: its identity and its behaviour. *)
Record Fn := mkFn {
  fn_ref : nat;
  fn_run : HandlerArg -> Dom -> U -> Reply
}.

Record Handlers := mkHandlers {
  handlers_dragStart : option Fn;
  handlers_dragOver : option Fn;
  handlers_dragLeave : option Fn;
  handlers_drop : option Fn;
  handlers_dragEnd : option Fn
}.

Record World := mkWorld {
  session : Session;
  document : Dom;
  user : U;
  (** the browser's drag data store behind [event.dataTransfer] *)
  nativeData : gmap string string;
  trace : list Action
}.

Definition M (A : Type) : Type := World -> Completion A * World.

Definition ret {A} (a : A) : M A := fun w => (Normal a, w).

Definition bind {A B} (m : M A) (k : A -> M B) : M B :=
  fun w =>
    match m w with
    | (Normal a, w') => k a w'
    | (Throw, w') => (Throw, w')
    end.

Notation "'do' x <- m ;; k" := (bind m (fun x => k))
  (at level 10, x name, m at level 98, k at level 200,
   format "'[v' 'do'  x  <-  m  ;; '/' k ']'").
Notation "m ;;; k" := (bind m (fun _ => k))
  (at level 98, k at level 200, format "'[v' m  ;;; '/' k ']'").

Definition gets {A} (f : World -> A) : M A := fun w => (Normal (f w), w).

Definition modify (f : World -> World) : M unit := fun w => (Normal tt, f w).

Definition with_session (f : Session -> Session) (w : World) : World :=
  {| session := f (session w); document := document w; user := user w;
     nativeData := nativeData w; trace := trace w |}.

Definition with_document (f : Dom -> Dom) (w : World) : World :=
  {| session := session w; document := f (document w); user := user w;
     nativeData := nativeData w; trace := trace w |}.

Definition log (a : Action) (w : World) : World :=
  {| session := session w; document := document w; user := user w;
     nativeData := nativeData w; trace := trace w ++ [a] |}.

Definition set_isDragging (b : bool) : M unit :=
  modify (with_session (fun s =>
    {| isDragging := b; draggedElement := draggedElement s;
       currentDropTarget := currentDropTarget s; dragData := dragData s |})).

Definition set_draggedElement (e : option ElemId) : M unit :=
  modify (with_session (fun s =>
    {| isDragging := isDragging s; draggedElement := e;
       currentDropTarget := currentDropTarget s; dragData := dragData s |})).

Definition set_currentDropTarget (e : option ElemId) : M unit :=
  modify (with_session (fun s =>
    {| isDragging := isDragging s; draggedElement := draggedElement s;
       currentDropTarget := e; dragData := dragData s |})).

Definition set_dragData (m : gmap string string) : M unit :=
  modify (with_session (fun s =>
    {| isDragging := isDragging s; draggedElement := draggedElement s;
       currentDropTarget := currentDropTarget s; dragData := m |})).

(** [event.preventDefault()] *)
Definition preventDefault : M unit := modify (log APreventDefault).

(** [MahjongUtils.getElementFromPoint] *)
Definition getElementFromPoint (x y : Z) (excludeElement : option ElemId)
  : M (option ElemId) :=
  match excludeElement with
  | Some ex =>
    do originalDisplay <- gets (fun w => style_display (document w ex)) ;;
    modify (with_document (set_display ex "none")) ;;;
    do element <- gets (fun w => elementFromPoint (document w) x y) ;;
    modify (with_document (set_display ex originalDisplay)) ;;;
    ret element
  | None => gets (fun w => elementFromPoint (document w) x y)
  end.

(** The body of the [setData] closure of the drag-start event:
    [if (event.dataTransfer) event.dataTransfer.setData(type, data);
     dragData[type] = data]. *)
Definition setData (hasDataTransfer : bool) (w : World) (kv : string * string)
  : World :=
  {| session :=
       {| isDragging := isDragging (session w);
          draggedElement := draggedElement (session w);
          currentDropTarget := currentDropTarget (session w);
          dragData := js_set (dragData (session w)) kv.1 kv.2 |};
     document := document w; user := user w;
     nativeData := if hasDataTransfer
                   then <[kv.1 := kv.2]> (nativeData w) else nativeData w;
     trace := trace w |}.

(** Calling a handler: the call is recorded, the handler's effects on the
    document and on the caller's state are applied, its [setData] calls
    are run when the event offers [setData], and its exception, if any,
    propagates. *)
Definition call (name : HandlerName) (f : Fn) (arg : HandlerArg)
           (hasDataTransfer : bool) : M unit :=
  fun w =>
    let r := fn_run f arg (document w) (user w) in
    let w1 := {| session := session w; document := r_dom r; user := r_user r;
                 nativeData := nativeData w;
                 trace := trace w ++ [ACall name arg] |} in
    let w2 := match arg with
              | Synthetic se =>
                if se_setData se
                then fold_left (setData hasDataTransfer) (r_setData r) w1
                else w1
              | Native _ => w1
              end in
    (if r_throws r then Throw else Normal tt, w2).

Definition isDraggableElement (d : Dom) (targetElement : option ElemId) : bool :=
  match targetElement with
  | None => false
  | Some t =>
    draggable (d t)
    || bool_decide ("mahjong-tile" ∈ classList (d t))
    || truthy (js_get (dataset (d t)) "tileId")
  end.

Definition isNonDraggableInteractive (d : Dom) (targetElement : option ElemId)
  : bool :=
  match targetElement with
  | None => false
  | Some t =>
    bool_decide (tagName (d t) = "BUTTON")
    || bool_decide (tagName (d t) = "A")
    || bool_decide (tagName (d t) = "INPUT")
    || bool_decide (is_Some (closest d sel_interactive t))
  end.

Section Closures.

Variable handlers : Handlers.

Definition unifiedDragStart (event : NativeEvent) : M unit :=
  if bool_decide (ev_type event = E_dragstart)
     || bool_decide (ev_type event = E_touchstart)
  then
    do targetElement <-
      (if bool_decide (ev_type event = E_touchstart)
       then getElementFromPoint (getEventCoordinates event).1
                                (getEventCoordinates event).2 None
       else ret (Some (ev_target event))) ;;
    do d <- gets document ;;
    if negb (isDraggableElement d targetElement)
       || isNonDraggableInteractive d targetElement
    then ret tt
    else
      set_isDragging true ;;;
      set_draggedElement targetElement ;;;
      set_dragData ∅ ;;;
      do syntheticEvent <- gets (fun w =>
        {| se_type := E_dragstart;
           se_target := draggedElement (session w);
           se_coords := None;
           se_getData := Some (fun type =>
             if ev_dataTransfer event
             then JStr (default "" (nativeData w !! type))
             else js_or (js_get (dragData (session w)) type) JNull);
           se_setData := true |}) ;;
      match handlers_dragStart handlers with
      | Some f => call HDragStart f (Synthetic syntheticEvent)
                       (ev_dataTransfer event)
      | None => ret tt
      end
  else ret tt.

Definition unifiedDragOver (event : NativeEvent) : M unit :=
  do dragging <- gets (fun w => isDragging (session w)) ;;
  if bool_decide (ev_type event = E_dragover)
     || (bool_decide (ev_type event = E_touchmove) && dragging)
  then
    preventDefault ;;;
    if bool_decide (ev_type event = E_touchmove)
    then
      let coords := getEventCoordinates event in
      do dragged <- gets (fun w => draggedElement (session w)) ;;
      do elementBelow <- getElementFromPoint coords.1 coords.2 dragged ;;
      do previous <- gets (fun w => currentDropTarget (session w)) ;;
      if bool_decide (elementBelow ≠ previous)
      then
        match previous, handlers_dragLeave handlers with
        | Some _, Some f =>
          call HDragLeave f
               (Synthetic {| se_type := E_dragleave; se_target := previous;
                             se_coords := None; se_getData := None;
                             se_setData := false |}) false
        | _, _ => ret tt
        end ;;;
        set_currentDropTarget elementBelow ;;;
        match elementBelow, handlers_dragOver handlers with
        | Some _, Some f =>
          call HDragOver f
               (Synthetic {| se_type := E_dragover; se_target := elementBelow;
                             se_coords := Some coords; se_getData := None;
                             se_setData := false |}) false
        | _, _ => ret tt
        end
      else ret tt
    else
      match handlers_dragOver handlers with
      | Some f => call HDragOver f (Native event) false
      | None => ret tt
      end
  else ret tt.

Definition touchEndHandler (event : NativeEvent) : M unit :=
  do dragging <- gets (fun w => isDragging (session w)) ;;
  if negb dragging then ret tt
  else
    preventDefault ;;;
    let coords := getEventCoordinates event in
    do dragged <- gets (fun w => draggedElement (session w)) ;;
    do dropTarget <- getElementFromPoint coords.1 coords.2 dragged ;;
    match dropTarget, handlers_drop handlers with
    | Some _, Some f =>
      do dropEvent <- gets (fun w =>
        {| se_type := E_drop; se_target := dropTarget;
           se_coords := Some coords;
           se_getData := Some (fun type =>
             js_or (js_get (dragData (session w)) type)
                   (match draggedElement (session w) with
                    | Some e => js_get (dataset (document w e)) "tileId"
                    | None => JNull
                    end));
           se_setData := false |}) ;;
      call HDrop f (Synthetic dropEvent) false
    | _, _ => ret tt
    end ;;;
    match handlers_dragEnd handlers with
    | Some f =>
      call HDragEnd f
           (Synthetic {| se_type := E_dragend; se_target := dragged;
                         se_coords := None; se_getData := None;
                         se_setData := false |}) false
    | None => ret tt
    end ;;;
    set_isDragging false ;;;
    set_draggedElement None ;;;
    set_currentDropTarget None ;;;
    set_dragData ∅.

Definition mouseDropHandler (event : NativeEvent) : M unit :=
  preventDefault ;;;
  match handlers_drop handlers with
  | Some f => call HDrop f (Native event) false
  | None => ret tt
  end.

Definition mouseDragEndHandler (event : NativeEvent) : M unit :=
  match handlers_dragEnd handlers with
  | Some f => call HDragEnd f (Native event) false
  | None => ret tt
  end ;;;
  set_isDragging false ;;;
  set_draggedElement None ;;;
  set_currentDropTarget None.

Definition touchStartHandler (event : NativeEvent) : M unit :=
  do d <- gets document ;;
  match closest d sel_tile (ev_target event) with
  | Some _ => unifiedDragStart event
  | None => ret tt
  end.

(** The listener that [setupDragAndDrop] registers for each event type. *)
Definition deliver (event : NativeEvent) : M unit :=
  match ev_type event with
  | E_dragstart => unifiedDragStart event
  | E_dragover => unifiedDragOver event
  | E_dragleave =>
    match handlers_dragLeave handlers with
    | Some f => call HDragLeave f (Native event) false
    | None => ret tt
    end
  | E_drop => mouseDropHandler event
  | E_dragend => mouseDragEndHandler event
  | E_touchstart => touchStartHandler event
  | E_touchmove => unifiedDragOver event
  | E_touchend => touchEndHandler event
  | E_touchcancel => touchEndHandler event
  end.

(** Events delivered one after the other; an exception ends the
    processing of its own event only. *)
Fixpoint run (events : list NativeEvent) (w : World) : World :=
  match events with
  | [] => w
  | event :: rest => run rest (deliver event w).2
  end.

(** The worlds a page can be in: the session starts empty, events are
    delivered, and between events anything but the session may change. *)
Inductive reachable : World -> Prop :=
| reach_init w : session w = emptySession -> reachable w
| reach_event w event : reachable w -> reachable (deliver event w).2
| reach_env w w' : reachable w -> session w' = session w -> reachable w'.

End Closures.

(** ** The listener registry of [document] and the static [_dragHandlers] *)

(** The six arrow functions one call of [setupDragAndDrop] creates. *)
Inductive ClosureName :=
| C_unifiedDragStart | C_unifiedDragOver | C_mouseDropHandler
| C_mouseDragEndHandler | C_touchEndHandler | C_touchStartHandler.

(** A listener callback is a function object: an arrow function created
    by the [n]-th call of [setupDragAndDrop] (each call creates new
    objects), or a function of the caller, known by its reference. *)
Inductive Callback :=
| Closure (n : nat) (c : ClosureName)
| Function (ref : nat).

(** One entry of the listener list; every registration of this file is
    on [document] in the bubbling phase, so these two parts are left out. *)
Record Listener := mkListener {
  l_type : EventType;
  l_callback : Callback
}.

#[global] Instance ClosureName_eq_dec : EqDecision ClosureName.
Proof. solve_decision. Defined.
#[global] Instance Callback_eq_dec : EqDecision Callback.
Proof. solve_decision. Defined.
#[global] Instance Listener_eq_dec : EqDecision Listener.
Proof. solve_decision. Defined.

(** [document.addEventListener]: an entry with the same type and
    callback is not added twice. *)
Definition addEventListener (type : EventType) (cb : Callback)
           (ls : list Listener) : list Listener :=
  if bool_decide (mkListener type cb ∈ ls) then ls
  else ls ++ [mkListener type cb].

(** [document.removeEventListener]: nothing happens when there is no
    such entry. *)
Definition removeEventListener (type : EventType) (cb : Callback)
           (ls : list Listener) : list Listener :=
  filter (fun l => l ≠ mkListener type cb) ls.

(** The object stored in [this._dragHandlers]. *)
Record DragHandlers := mkDragHandlers {
  dh_unifiedDragStart : Callback;
  dh_unifiedDragOver : Callback;
  dh_mouseDropHandler : Callback;
  dh_mouseDragEndHandler : Callback;
  dh_touchEndHandler : Callback;
  dh_touchStartHandler : Callback;
  originalHandlers : Handlers
}.

Record Page := mkPage {
  listeners : list Listener;
  _dragHandlers : option DragHandlers;
  (** how many times [setupDragAndDrop] has run: names the function
      objects of the next call *)
  setupCalls : nat
}.

(** The registration part of [MahjongUtils.setupDragAndDrop]. *)
Definition setupDragAndDrop (handlers : Handlers) (p : Page) : Page :=
  let n := setupCalls p in
  let unifiedDragStart := Closure n C_unifiedDragStart in
  let unifiedDragOver := Closure n C_unifiedDragOver in
  let touchEndHandler := Closure n C_touchEndHandler in
  let mouseDropHandler := Closure n C_mouseDropHandler in
  let mouseDragEndHandler := Closure n C_mouseDragEndHandler in
  let touchStartHandler := Closure n C_touchStartHandler in
  let ls := listeners p in
  let ls := addEventListener E_dragstart unifiedDragStart ls in
  let ls := addEventListener E_dragover unifiedDragOver ls in
  let ls := match handlers_dragLeave handlers with
            | Some f => addEventListener E_dragleave (Function (fn_ref f)) ls
            | None => ls
            end in
  let ls := addEventListener E_drop mouseDropHandler ls in
  let ls := addEventListener E_dragend mouseDragEndHandler ls in
  let ls := addEventListener E_touchstart touchStartHandler ls in
  let ls := addEventListener E_touchmove unifiedDragOver ls in
  let ls := addEventListener E_touchend touchEndHandler ls in
  let ls := addEventListener E_touchcancel touchEndHandler ls in
  {| listeners := ls;
     _dragHandlers := Some
       {| dh_unifiedDragStart := unifiedDragStart;
          dh_unifiedDragOver := unifiedDragOver;
          dh_mouseDropHandler := mouseDropHandler;
          dh_mouseDragEndHandler := mouseDragEndHandler;
          dh_touchEndHandler := touchEndHandler;
          dh_touchStartHandler := touchStartHandler;
          originalHandlers := handlers |};
     setupCalls := S n |}.

(** [MahjongUtils.removeDragAndDrop] *)
Definition removeDragAndDrop (p : Page) : Page :=
  match _dragHandlers p with
  | Some dh =>
    let ls := listeners p in
    let ls := removeEventListener E_dragstart (dh_unifiedDragStart dh) ls in
    let ls := removeEventListener E_dragover (dh_unifiedDragOver dh) ls in
    let ls := match handlers_dragLeave (originalHandlers dh) with
              | Some f => removeEventListener E_dragleave (Function (fn_ref f)) ls
              | None => ls
              end in
    let ls := removeEventListener E_drop (dh_mouseDropHandler dh) ls in
    let ls := removeEventListener E_dragend (dh_mouseDragEndHandler dh) ls in
    let ls := removeEventListener E_touchstart (dh_touchStartHandler dh) ls in
    let ls := removeEventListener E_touchmove (dh_unifiedDragOver dh) ls in
    let ls := removeEventListener E_touchend (dh_touchEndHandler dh) ls in
    let ls := removeEventListener E_touchcancel (dh_touchEndHandler dh) ls in
    {| listeners := ls; _dragHandlers := None; setupCalls := setupCalls p |}
  | None => p
  end.

(** The arrow functions in the listener list all come from calls of
    [setupDragAndDrop] that have already happened. *)
Definition closures_known (p : Page) : Prop :=
  ∀ t n c, mkListener t (Closure n c) ∈ listeners p → (n < setupCalls p)%nat.

(** A page on which [setupDragAndDrop] has not run and nothing listens. *)
Definition freshPage : Page :=
  {| listeners := []; _dragHandlers := None; setupCalls := 0 |}.

(** The listeners of the [n]-th call of [setupDragAndDrop] that are
    arrow functions of that call. *)
Definition closure_listeners (n : nat) : list Listener :=
  [ mkListener E_dragstart (Closure n C_unifiedDragStart);
    mkListener E_dragover (Closure n C_unifiedDragOver);
    mkListener E_drop (Closure n C_mouseDropHandler);
    mkListener E_dragend (Closure n C_mouseDragEndHandler);
    mkListener E_touchstart (Closure n C_touchStartHandler);
    mkListener E_touchmove (Closure n C_unifiedDragOver);
    mkListener E_touchend (Closure n C_touchEndHandler);
    mkListener E_touchcancel (Closure n C_touchEndHandler) ].

(** Everything the [n]-th call registers: the arrow functions, and the
    caller's drag-leave function when there is one. *)
Definition registrations (handlers : Handlers) (n : nat) : list Listener :=
  closure_listeners n ++
  match handlers_dragLeave handlers with
  | Some f => [mkListener E_dragleave (Function (fn_ref f))]
  | None => []
  end.

(** ** Vocabulary of the properties *)

(** What one listener run adds to the trace. *)
Definition emitted (m : M unit) (w : World) : list Action :=
  drop (length (trace w)) (trace (m w).2).

Definition count_calls (h : HandlerName) (l : list Action) : nat :=
  length (List.filter (is_call h) l).

(** The start test of [unifiedDragStart]: the routine goes on exactly
    when this holds of the resolved target. *)
Definition eligible (d : Dom) (targetElement : option ElemId) : bool :=
  negb (negb (isDraggableElement d targetElement)
        || isNonDraggableInteractive d targetElement).

Definition interactive (n : Node) : Prop :=
  tagName n = "BUTTON" ∨ tagName n = "A" ∨ tagName n = "INPUT".

(** The element is, or is contained within, a button, link or input. *)
Definition within_interactive (d : Dom) (t : ElemId) : Prop :=
  interactive (d t) ∨ ∃ a, a ∈ ancestors (d t) ∧ interactive (d a).

(** The values the synthetic drop events of a trace give for [key]. *)
Definition dropGetData (key : string) (l : list Action) : list JsVal :=
  omap (fun a =>
          match a with
          | ACall HDrop (Synthetic se) =>
            match se_getData se with
            | Some getData => Some (getData key)
            | None => None
            end
          | _ => None
          end) l.

(** The value of the last [setData] call for [key], if there is one. *)
Fixpoint last_set (key : string) (kvs : list (string * string))
  : option string :=
  match kvs with
  | [] => None
  | kv :: rest =>
    match last_set key rest with
    | Some v => Some v
    | None => if bool_decide (kv.1 = key) then Some kv.2 else None
    end
  end.

(** When no drag is in progress the session names no element. *)
Definition session_invariant (s : Session) : Prop :=
  isDragging s = false → draggedElement s = None ∧ currentDropTarget s = None.

(** What a listener may do to the session: leave it as it is, leave or put
    it in a state where a drag is in progress, or end the drag and forget
    both elements. *)
Definition session_step (s s' : Session) : Prop :=
  s' = s
  ∨ isDragging s' = true
  ∨ (isDragging s' = false ∧ draggedElement s' = None
     ∧ currentDropTarget s' = None).

(** The target [unifiedDragStart] tests: the element under the first touch
    point for a touch, the event's own target otherwise. *)
Definition startTarget (event : NativeEvent) (w : World) : option ElemId :=
  if bool_decide (ev_type event = E_touchstart)
  then elementFromPoint (document w) (getEventCoordinates event).1
                        (getEventCoordinates event).2
  else Some (ev_target event).

(** A computation that only ever appends to the trace. *)
Definition extends (m : M unit) : Prop :=
  ∀ w, trace (m w).2 = trace w ++ emitted m w.

(** The element a touch event resolves to while [dragged] is suspended:
    what [getElementFromPoint] returns for the event's coordinates. *)
Definition resolves (event : NativeEvent) (w : World) : option ElemId :=
  match (getElementFromPoint (getEventCoordinates event).1
                             (getEventCoordinates event).2
                             (draggedElement (session w)) w).1 with
  | Normal r => r
  | Throw => None
  end.

(** A sequence of touch-move events, delivered one after the other from
    [w], each resolving to [r] when it is delivered. *)
Fixpoint touchmoves_resolving_to (handlers : Handlers) (r : option ElemId)
         (events : list NativeEvent) (w : World) : Prop :=
  match events with
  | [] => True
  | event :: rest =>
    ev_type event = E_touchmove
    ∧ resolves event w = r
    ∧ touchmoves_resolving_to handlers r rest (deliver handlers event w).2
  end.

End Core.

Arguments Reply U : clear implicits.
Arguments Fn U : clear implicits.
Arguments Handlers U : clear implicits.
Arguments World U : clear implicits.
Arguments DragHandlers U : clear implicits.
Arguments Page U : clear implicits.

(** ** A small page, used to run the closures on concrete inputs *)

Module Demo.

(** Element 1 is the tile ["0-3"], lying on top of the drop zone 2;
    3 is a button carrying a tile identifier; 4 carries only a tile
    identifier; 5 carries only an empty tile identifier; 6 is a tile
    inside a link (element 7). *)
Definition node (tag : string) (drag : bool) (cls : list string)
           (data : gmap string string) (anc : list ElemId) : Node :=
  {| tagName := tag; draggable := drag; classList := cls; dataset := data;
     style_display := ""; display_important := false;
     style_attribute := StyleAbsent; ancestors := anc |}.

Definition page : Dom := fun e =>
  match e with
  | 1%nat => node "DIV" true ["mahjong-tile"] {[ "tileId" := "0-3" ]} [0%nat]
  | 2%nat => node "DIV" false ["drop-zone"] ∅ [0%nat]
  | 3%nat => node "BUTTON" false [] {[ "tileId" := "0-9" ]} [0%nat]
  | 4%nat => node "DIV" false [] {[ "tileId" := "0-4" ]} [0%nat]
  | 5%nat => node "DIV" false [] {[ "tileId" := "" ]} [0%nat]
  | 6%nat => node "DIV" true ["mahjong-tile"] {[ "tileId" := "0-6" ]} [7%nat; 0%nat]
  | 7%nat => node "A" false [] ∅ [0%nat]
  | _ => node "BODY" false [] ∅ []
  end.

(** Boxes [(element, (left, top, right, bottom))], topmost first. *)
Definition layout : list (ElemId * (Z * Z * Z * Z)) :=
  [ (1%nat, (0, 0, 10, 10));
    (2%nat, (0, 0, 100, 100));
    (3%nat, (200, 0, 210, 10));
    (4%nat, (300, 0, 310, 10));
    (5%nat, (400, 0, 410, 10));
    (6%nat, (500, 0, 510, 10));
    (7%nat, (500, 0, 520, 20)) ].

Definition inside (box : Z * Z * Z * Z) (x y : Z) : bool :=
  let '(l, t, r, b) := box in
  Z.leb l x && Z.ltb x r && Z.leb t y && Z.ltb y b.

(** Hit testing: the topmost box at the point whose element is not
    hidden by [display: none]. *)
Definition hitTest (d : Dom) (x y : Z) : option ElemId :=
  fst <$> List.find
    (fun '(e, box) => inside box x y
                      && negb (bool_decide (style_display (d e) = "none")))
    layout.

Definition same (d : Dom) : Reply unit :=
  mkReply d tt [] false.

(** A handler that only returns. *)
Definition quiet (ref : nat) : Fn unit := mkFn ref (fun _ d _ => same d).

(** A drag-start handler that stores the payload [data]. *)
Definition setter (ref : nat) (data : string) : Fn unit :=
  mkFn ref (fun _ d _ => mkReply d tt [("text/plain", data)] false).

(** A drag-start handler that stores [data] under ['__proto__'] and
    under ['text/plain']. *)
Definition protoSetter (ref : nat) (data : string) : Fn unit :=
  mkFn ref (fun _ d _ =>
    mkReply d tt [("__proto__", data); ("text/plain", data)] false).

(** A handler that throws. *)
Definition thrower (ref : nat) : Fn unit :=
  mkFn ref (fun _ d _ => mkReply d tt [] true).

Definition allQuiet : Handlers unit :=
  mkHandlers (Some (quiet 10)) (Some (quiet 11)) (Some (quiet 12))
             (Some (quiet 13)) (Some (quiet 14)).

Definition withPayload (data : string) : Handlers unit :=
  mkHandlers (Some (setter 10 data)) (Some (quiet 11)) (Some (quiet 12))
             (Some (quiet 13)) (Some (quiet 14)).

Definition withProto (data : string) : Handlers unit :=
  mkHandlers (Some (protoSetter 10 data)) (Some (quiet 11)) (Some (quiet 12))
             (Some (quiet 13)) (Some (quiet 14)).

Definition dropThrows : Handlers unit :=
  mkHandlers (Some (quiet 10)) (Some (quiet 11)) (Some (quiet 12))
             (Some (thrower 13)) (Some (quiet 14)).

Definition start : World unit := mkWorld emptySession page tt ∅ [].

(** The page on which the markup styles the tile
    [display: block !important]. *)
Definition pinnedPage : Dom := fun e =>
  match e with
  | 1%nat =>
    {| tagName := "DIV"; draggable := true; classList := ["mahjong-tile"];
       dataset := {[ "tileId" := "0-3" ]};
       style_display := "block"; display_important := true;
       style_attribute := StyleAsWritten; ancestors := [0%nat] |}
  | _ => page e
  end.

Definition pinned : World unit := mkWorld emptySession pinnedPage tt ∅ [].

Definition touch (type : EventType) (target : ElemId) (x y : Z) : NativeEvent :=
  {| ev_type := type; ev_target := target;
     touches := match type with
                | E_touchend | E_touchcancel => []
                | _ => [mkTouch x y]
                end;
     changedTouches := [mkTouch x y];
     ev_clientX := 0; ev_clientY := 0; ev_dataTransfer := false |}.

Definition mouse (type : EventType) (target : ElemId) (x y : Z) : NativeEvent :=
  {| ev_type := type; ev_target := target; touches := []; changedTouches := [];
     ev_clientX := x; ev_clientY := y; ev_dataTransfer := true |}.

(** Three touch moves over the drop zone. *)
Definition movesOverZone : list NativeEvent :=
  [touch E_touchmove 1%nat 50 50; touch E_touchmove 1%nat 60 60;
   touch E_touchmove 1%nat 70 70].

(** The drag-over event of the first of them. *)
Definition zoneOver : SynEvent :=
  {| se_type := E_dragover; se_target := Some 2%nat;
     se_coords := Some (50, 50); se_getData := None; se_setData := false |}.

(** A page on which somebody else listens for drops. *)
Definition busyPage : Page unit :=
  {| listeners := [mkListener E_drop (Function 99)];
     _dragHandlers := None; setupCalls := 0 |}.

(** The tile has been picked up with the mouse. *)
Definition mouseDragging (h : Handlers unit) : World unit :=
  (deliver hitTest h (mouse E_dragstart 1%nat 5 5) start).2.

(** The tile has been picked up by touch. *)
Definition dragging (h : Handlers unit) : World unit :=
  (deliver hitTest h (touch E_touchstart 1%nat 5 5) start).2.

End Demo.

(** * Tiles, walls, clusters and displays

    The helpers of [MahjongUtils] that build and update elements.  An
    element is modelled with its [id], the properties of [Node], its other
    inline style properties, its text and its children.  Strings are
    ASCII; numbers are integers, within the range in which the code's
    floating-point arithmetic is exact where a property depends on it. *)

(** ** Strings and class lists *)

(** ASCII whitespace in the sense of the DOM standard: what separates the
    tokens of a [class] attribute. *)
Definition ascii_whitespace (c : Ascii.ascii) : bool :=
  bool_decide (Ascii.nat_of_ascii c ∈ [9; 10; 12; 13; 32]%nat).

Fixpoint tokens_go (cur : option string) (s : string) : list string :=
  match s with
  | EmptyString => option_list (String.rev <$> cur)
  | String a s =>
    if ascii_whitespace a
    then option_list (String.rev <$> cur) ++ tokens_go None s
    else tokens_go (Some (from_option (String a) (String a EmptyString) cur)) s
  end.

(** [classList.add] for a token that is valid: appended when new. *)
Definition add_token (c : string) (l : list string) : list string :=
  if bool_decide (c ∈ l) then l else l ++ [c].

(** The tokens [classList] shows for a [className]: in order, each where
    it comes first. *)
Definition classTokens (className : string) : list string :=
  foldl (fun tokens c => add_token c tokens) [] (tokens_go None className).

Fixpoint trimStart (s : string) : string :=
  match s with
  | EmptyString => EmptyString
  | String a s' => if Ascii.is_space a then trimStart s' else s
  end.

Fixpoint trimEnd (s : string) : string :=
  match s with
  | EmptyString => EmptyString
  | String a s' =>
    match trimEnd s' with
    | EmptyString => if Ascii.is_space a then EmptyString else String a EmptyString
    | r => String a r
    end
  end.

(** [String.prototype.trim] *)
Definition trim (s : string) : string := trimEnd (trimStart s).

(** [classList.remove] for a token that is valid. *)
Definition remove_token (c : string) (l : list string) : list string :=
  filter (fun c' => c' ≠ c) l.

(** A token [classList] accepts: not empty and free of ASCII whitespace;
    [add] and [remove] throw on any other. *)
Definition valid_token (c : string) : bool :=
  negb (bool_decide (c = ""))
  && forallb (fun a => negb (ascii_whitespace a)) (String.list_ascii_of_string c).

(** A number followed by ['px']. *)
Definition px (n : Z) : string := pretty n +:+ "px".

(** ** Elements *)

Inductive Element := mkElement {
  (** the [id] attribute *)
  el_id : option string;
  (** the element's own properties; its [ancestors] are left empty, the
      tree tells where it hangs *)
  el_node : Node;
  (** inline style properties other than [display], none of them with
      [!important] *)
  el_style : gmap string string;
  (** the text set through [textContent] *)
  el_text : string;
  el_children : list Element
}.

(** [document.createElement('div')] *)
Definition createElement_div : Element :=
  {| el_id := None;
     el_node := {| tagName := "DIV"; draggable := false; classList := [];
                   dataset := ∅; style_display := "";
                   display_important := false;
                   style_attribute := StyleAbsent; ancestors := [] |};
     el_style := ∅; el_text := ""; el_children := [] |}.

Definition with_node (f : Node -> Node) (el : Element) : Element :=
  {| el_id := el_id el; el_node := f (el_node el); el_style := el_style el;
     el_text := el_text el; el_children := el_children el |}.

Definition with_children (f : list Element -> list Element) (el : Element)
  : Element :=
  {| el_id := el_id el; el_node := el_node el; el_style := el_style el;
     el_text := el_text el; el_children := f (el_children el) |}.

Definition with_classList (f : list string -> list string) (el : Element)
  : Element :=
  with_node (fun n =>
    {| tagName := tagName n; draggable := draggable n;
       classList := f (classList n); dataset := dataset n;
       style_display := style_display n;
       display_important := display_important n;
       style_attribute := style_attribute n; ancestors := ancestors n |}) el.

(** [el.className = s] *)
Definition set_className (s : string) (el : Element) : Element :=
  with_classList (fun _ => classTokens s) el.

(** [el.draggable = b] *)
Definition set_draggable (b : bool) (el : Element) : Element :=
  with_node (fun n =>
    {| tagName := tagName n; draggable := b; classList := classList n;
       dataset := dataset n; style_display := style_display n;
       display_important := display_important n;
       style_attribute := style_attribute n; ancestors := ancestors n |}) el.

(** [el.dataset[key] = value] *)
Definition set_data (key value : string) (el : Element) : Element :=
  with_node (fun n =>
    {| tagName := tagName n; draggable := draggable n;
       classList := classList n; dataset := <[key := value]> (dataset n);
       style_display := style_display n;
       display_important := display_important n;
       style_attribute := style_attribute n; ancestors := ancestors n |}) el.

(** [el.style[key] = value], for a value the property accepts: nothing
    happens when the property has that value already, else the
    declaration is written and the [style] attribute with it. *)
Definition set_style (key value : string) (el : Element) : Element :=
  if bool_decide (el_style el !! key = Some value) then el
  else {| el_id := el_id el; el_node := serialized (el_node el);
          el_style := <[key := value]> (el_style el);
          el_text := el_text el; el_children := el_children el |}.

(** [el.textContent = value]: the children give way to the text. *)
Definition set_textContent (value : string) (el : Element) : Element :=
  {| el_id := el_id el; el_node := el_node el; el_style := el_style el;
     el_text := value; el_children := [] |}.

(** [el.innerHTML = ''] *)
Definition clear_children (el : Element) : Element :=
  {| el_id := el_id el; el_node := el_node el; el_style := el_style el;
     el_text := ""; el_children := [] |}.

(** [el.appendChild(child)] for a child that has no parent yet. *)
Definition appendChild (child : Element) (el : Element) : Element :=
  with_children (fun children => children ++ [child]) el.

(** Where an element is put: its [left] and [top]. *)
Definition position (el : Element) : option string * option string :=
  (el_style el !! "left", el_style el !! "top").

(** ** The page as a tree *)

(** Where the code attaches or detaches elements, the page is the tree
    of its elements, from the root element down. *)
Abbreviation DocumentTree := Element.

(** A reference to an element of the page: the child indices that lead
    to it from the root. *)
Definition Ref := list nat.

(** The element a reference refers to, if it is on the page. *)
Fixpoint deref (r : Ref) (page : DocumentTree) : option Element :=
  match r with
  | [] => Some page
  | i :: r' =>
    match el_children page !! i with
    | Some child => deref r' child
    | None => None
    end
  end.

(** The page after the element [r] refers to has been changed by [f]. *)
Fixpoint write (r : Ref) (f : Element -> Element) (page : DocumentTree)
  : DocumentTree :=
  match r with
  | [] => f page
  | i :: r' => with_children (alter (write r' f) i) page
  end.

(** An element has the ID [id] when that is the value of its [id]
    attribute and is not empty. *)
Definition has_id (id : string) (el : Element) : bool :=
  bool_decide (el_id el = Some id) && negb (bool_decide (id = "")).

Section FirstChild.

Variable find : Element -> option Ref.

(** The first of the children, from the [i]-th on, in which [find] finds
    something. *)
Fixpoint first_child (i : nat) (children : list Element) : option Ref :=
  match children with
  | [] => None
  | child :: rest =>
    match find child with
    | Some r => Some (i :: r)
    | None => first_child (S i) rest
    end
  end.

End FirstChild.

(** [document.getElementById]: the first element, in tree order, that
    has the ID. *)
Fixpoint getElementById (id : string) (page : DocumentTree) : option Ref :=
  if has_id id page then Some []
  else first_child (getElementById id) 0%nat (el_children page).

(** ** [createTile], [positionTileInWall], [createWall] *)

(** [MahjongUtils.createTile] *)
Definition createTile (tileId : string) (wallIndex : option Z)
           (draggable : bool) (additionalClasses : string) : Element :=
  let tile := createElement_div in
  let tile := set_className (trim ("mahjong-tile " +:+ additionalClasses)) tile in
  let tile := set_draggable draggable tile in
  let tile := set_data "tileId" tileId tile in
  let tile := set_style "touchAction" "none" tile in
  let tile := set_style "userSelect" "none" tile in
  match wallIndex with
  | Some i => set_data "wallIndex" (pretty i) tile
  | None => tile
  end.

(** [MahjongUtils.positionTileInWall].  [tilesPerStack] is a positive
    integer: with 0 JavaScript computes with [Infinity] and [NaN].  The
    arithmetic is that of the integers.  It is the code's as long as
    every number the code computes is an integer below [2^53], which its
    floating-point arithmetic gives exactly and prints digit by digit:
    for tile indices from 0 to [2^48], see [exact_index].  Beyond that
    the code rounds, and the properties that depend on the arithmetic do
    not reach. *)
Definition positionTileInWall (tile : Element) (wallIndex tileIndex : Z)
           (tilesPerStack : positive) : Element :=
  let stackIndex := tileIndex `div` Z.pos tilesPerStack in
  let isTopTile := bool_decide (tileIndex `rem` Z.pos tilesPerStack = 1) in
  let tile :=
    if bool_decide (wallIndex = 0) || bool_decide (wallIndex = 2)
    then set_style "transform" "rotate(90deg)" tile
    else tile in
  let tile :=
    if bool_decide (wallIndex = 1) || bool_decide (wallIndex = 3)
    then set_style "top" (px (if isTopTile then 15 else 35))
           (set_style "left" (px (10 + stackIndex * 30)) tile)
    else set_style "left" (px (if isTopTile then 25 else 45))
           (set_style "top" (px (20 + stackIndex * 25)) tile) in
  if isTopTile then with_classList (add_token "stacked") tile else tile.

(** One turn of the loop of [createWall]. *)
Definition wallTile (wallIndex : Z) (placed : bool) (i : Z) : Element :=
  let tileId := pretty wallIndex +:+ "-" +:+ pretty i in
  let additionalClasses := if placed then "fixed" else "" in
  let tile := createTile tileId (Some wallIndex) (negb placed) additionalClasses in
  positionTileInWall tile wallIndex i 2.

(** The loop [for (let i = 0; i < totalTiles; i++)], with [turns] turns
    left to go from [i]. *)
Fixpoint createWall_loop (turns : nat) (i : Z) (wallIndex : Z) (placed : bool)
         (wallEl : Ref) (page : DocumentTree) (tiles : list Element)
  : DocumentTree * list Element :=
  match turns with
  | O => (page, tiles)
  | S turns' =>
    let tile := wallTile wallIndex placed i in
    createWall_loop turns' (i + 1) wallIndex placed wallEl
                    (write wallEl (appendChild tile) page) (tiles ++ [tile])
  end.

(** [MahjongUtils.createWall]: throws when no element has the id. *)
Definition createWall (wallId : string) (wallIndex totalTiles : Z)
           (placed : bool) (page : DocumentTree)
  : Completion (list Element) * DocumentTree :=
  match getElementById wallId page with
  | None => (Throw, page)
  | Some wallEl =>
    let page := write wallEl clear_children page in
    let '(page, tiles) :=
      createWall_loop (Z.to_nat totalTiles) 0 wallIndex placed wallEl page [] in
    (Normal tiles, page)
  end.

(** ** [createTileCluster] *)

(** A tile of a cluster. *)
Definition clusterTile (border : bool) (left top : Z) : Element :=
  let tile := createElement_div in
  let tile := set_className "mahjong-tile placed" tile in
  let tile := if border then set_style "border" "2px solid gold" tile else tile in
  let tile := set_style "position" "absolute" tile in
  let tile := set_style "left" (px left) tile in
  set_style "top" (px top) tile.

(** [MahjongUtils.createTileCluster] *)
Definition createTileCluster (tileCount : Z) (isDealer isFinal : bool) : Element :=
  let cluster := set_className "tile-cluster" createElement_div in
  if bool_decide (tileCount = 4)
  then
    foldl (fun cluster stack =>
             foldl (fun cluster i =>
                      appendChild (clusterTile false (stack * 22) (i * 2)) cluster)
                   cluster [0; 1])
          cluster [0; 1]
  else if bool_decide (tileCount = 2)
  then
    foldl (fun cluster i =>
             appendChild (clusterTile (isFinal && isDealer) (i * 11) 0) cluster)
          cluster [0; 1]
  else if bool_decide (tileCount = 1)
  then appendChild (clusterTile false 0 0) cluster
  else cluster.

(** ** [updateStat], [updateStats], [highlightCurrentPlayer] *)

(** [MahjongUtils.updateStat] *)
Definition updateStat (elementId value : string) (page : DocumentTree)
  : DocumentTree :=
  match getElementById elementId page with
  | Some element => write element (set_textContent value) page
  | None => page
  end.

(** [MahjongUtils.updateStats], on [Object.entries(stats)]. *)
Definition updateStats (entries : list (string * string))
           (page : DocumentTree) : DocumentTree :=
  foldl (fun page entry => updateStat entry.1 entry.2 page) page entries.

(** Where the code only rewrites the classes of the elements it finds,
    the page is the table [document.getElementById] reads: the elements
    that carry an id, by id. *)
Abbreviation Ids := (gmap string Element).

(** [element.classList.remove(className)] and [element.classList.add(className)]
    on the element with the id, when there is one. *)
Definition classList_remove (className : string) (id : string) (page : Ids)
  : Completion unit * Ids :=
  match page !! id with
  | Some element =>
    if valid_token className
    then (Normal tt, <[id := with_classList (remove_token className) element]> page)
    else (Throw, page)
  | None => (Normal tt, page)
  end.

Definition classList_add (className : string) (id : string) (page : Ids)
  : Completion unit * Ids :=
  match page !! id with
  | Some element =>
    if valid_token className
    then (Normal tt, <[id := with_classList (add_token className) element]> page)
    else (Throw, page)
  | None => (Normal tt, page)
  end.

(** [allPlayerIds.forEach(...)]: stops at the first exception. *)
Fixpoint forEach_remove (className : string) (ids : list string) (page : Ids)
  : Completion unit * Ids :=
  match ids with
  | [] => (Normal tt, page)
  | playerId :: rest =>
    match classList_remove className playerId page with
    | (Normal _, page') => forEach_remove className rest page'
    | (Throw, page') => (Throw, page')
    end
  end.

(** [MahjongUtils.highlightCurrentPlayer] *)
Definition highlightCurrentPlayer (className currentPlayerId : string)
           (allPlayerIds : list string) (page : Ids) : Completion unit * Ids :=
  match forEach_remove className allPlayerIds page with
  | (Normal _, page') => classList_add className currentPlayerId page'
  | (Throw, page') => (Throw, page')
  end.

(** ** Vocabulary of the properties of this part *)

(** The marks of an element the drag layer looks at are those of [el]. *)
Definition built_like (el : Element) (n : Node) : Prop :=
  tagName n = tagName (el_node el)
  ∧ draggable n = draggable (el_node el)
  ∧ classList n = classList (el_node el)
  ∧ dataset n = dataset (el_node el).

(** Two elements that differ in their classes at most. *)
Definition same_but_classes (el el' : Element) : Prop :=
  el_id el' = el_id el
  ∧ el_style el' = el_style el ∧ el_text el' = el_text el
  ∧ el_children el' = el_children el
  ∧ tagName (el_node el') = tagName (el_node el)
  ∧ draggable (el_node el') = draggable (el_node el)
  ∧ dataset (el_node el') = dataset (el_node el)
  ∧ style_display (el_node el') = style_display (el_node el)
  ∧ display_important (el_node el') = display_important (el_node el)
  ∧ style_attribute (el_node el') = style_attribute (el_node el).

(** A handler that returns normally whatever it is given. *)
Definition never_throws {U : Type} (f : Fn U) : Prop :=
  ∀ arg d u, r_throws (fn_run f arg d u) = false.

(** An element made by [createTile], by a turn of [createWall] or as a
    tile of a cluster. *)
Definition made_tile (el : Element) : Prop :=
  (∃ tileId wallIndex draggable additionalClasses,
     el = createTile tileId wallIndex draggable additionalClasses)
  ∨ (∃ wallIndex placed i, el = wallTile wallIndex placed i)
  ∨ (∃ tileCount isDealer isFinal,
       el ∈ el_children (createTileCluster tileCount isDealer isFinal)).

(** The value [Object.entries] pairs with a key. *)
Definition entry_of (entries : list (string * string)) (key : string)
  : option string :=
  snd <$> List.find (fun entry => bool_decide (entry.1 = key)) entries.

(** A tile index with which [positionTileInWall] computes exactly: the
    largest number it forms, [10 + stackIndex * 30], stays below [2^53]. *)
Definition exact_index (tileIndex : Z) : Prop := 0 ≤ tileIndex ≤ 2 ^ 48.

(** [Number.isSafeInteger] *)
Definition safe_integer (n : Z) : Prop := - 2 ^ 53 < n < 2 ^ 53.

(** The IDs of the elements of a tree, in tree order. *)
Fixpoint ids (el : Element) : list string :=
  match el_id el with
  | Some id => if bool_decide (id = "") then [] else [id]
  | None => []
  end ++ concat (map ids (el_children el)).

(** What an element is by itself, its children apart. *)
Definition own (el : Element)
  : option string * Node * gmap string string * string :=
  (el_id el, el_node el, el_style el, el_text el).

(** [r] refers to something inside the element [p] refers to. *)
Definition inside (p r : Ref) : Prop := p `prefix_of` r ∧ p ≠ r.

(** The value the entries hold for an element: that of its ID. *)
Definition stat_of (entries : list (string * string)) (el : Element)
  : option string :=
  match el_id el with
  | Some id => if bool_decide (id = "") then None else entry_of entries id
  | None => None
  end.

(** The page on which every element the entries hold a value for shows
    that value as its text and has no children, unless it lies inside
    another such element, and is gone with it. *)
Fixpoint stats_applied (entries : list (string * string)) (el : Element)
  : Element :=
  match stat_of entries el with
  | Some value => set_textContent value el
  | None => with_children (map (stats_applied entries)) el
  end.

(** ** A page for the examples *)

Module DemoPage.

Definition div (id : option string) (children : list Element) : Element :=
  {| el_id := id; el_node := el_node createElement_div; el_style := ∅;
     el_text := ""; el_children := children |}.

(** A board whose top wall still holds a tile that carries an id, next
    to a panel with two displays; the second display holds a label with
    an id of its own. *)
Definition board : DocumentTree :=
  div (Some "board")
      [ div (Some "wall-top") [div (Some "old-tile") []];
        div (Some "panel")
            [ div (Some "score") [];
              div (Some "tilesLeft") [div (Some "label") []] ] ].

End DemoPage.

(** * Properties *)

Section Proofs.

Context {U : Type}.
Variable elementFromPoint : Dom -> Z -> Z -> option ElemId.

Abbreviation getElementFromPoint := (getElementFromPoint elementFromPoint).
Abbreviation unifiedDragStart := (unifiedDragStart elementFromPoint).
Abbreviation unifiedDragOver := (unifiedDragOver elementFromPoint).
Abbreviation touchEndHandler := (touchEndHandler elementFromPoint).
Abbreviation touchStartHandler := (touchStartHandler elementFromPoint).
Abbreviation deliver := (deliver elementFromPoint).
Abbreviation run := (run elementFromPoint).
Abbreviation reachable := (reachable elementFromPoint).
Abbreviation resolves := (resolves elementFromPoint).
Abbreviation touchmoves_resolving_to := (touchmoves_resolving_to elementFromPoint).

Implicit Types (w : World U) (handlers : Handlers U) (event : NativeEvent).
Implicit Types (d : Dom) (e ex t : ElemId).

(** ** The document store *)

Lemma style_set_display_value v n :
  style_display (style_set_display v n) = v.
Proof.
  unfold style_set_display. destruct (display_important n);
    repeat case_bool_decide; simpl; congruence.
Qed.

Lemma set_display_same d ex v : style_display (set_display ex v d ex) = v.
Proof.
  unfold set_display. rewrite bool_decide_eq_true_2 by done.
  apply style_set_display_value.
Qed.

Lemma set_display_other d ex v e : e ≠ ex → set_display ex v d e = d e.
Proof. intros. unfold set_display. by rewrite bool_decide_eq_false_2. Qed.

(** Hiding an element and writing its [display] back: the value is the
    old one, the priority is gone and the [style] attribute is rewritten;
    only an element that was hidden already, by a declaration without
    priority, is written to by neither step. *)
Lemma style_set_display_restore n :
  style_set_display (style_display n) (style_set_display "none" n)
  = if bool_decide (style_display n = "none") && negb (display_important n)
    then n
    else write_display (style_display n) n.
Proof.
  unfold style_set_display at 2. simpl.
  destruct (bool_decide (style_display n = "none")
            && negb (display_important n)) eqn:Hhidden.
  - apply andb_true_iff in Hhidden as [Hnone Hplain].
    apply bool_decide_eq_true_1 in Hnone.
    unfold style_set_display. by rewrite Hnone, Hplain.
  - clear Hhidden. unfold style_set_display. simpl.
    destruct (decide (style_display n = "")) as [Hempty|Hempty].
    + by rewrite Hempty.
    + rewrite (bool_decide_eq_false_2 _ Hempty).
      destruct (decide ("none" = style_display n)) as [<-|Hother]; [done|].
      by rewrite (bool_decide_eq_false_2 _ Hother).
Qed.

Lemma set_display_restore d ex :
  set_display ex (style_display (d ex)) (set_display ex "none" d) ex
  = if bool_decide (style_display (d ex) = "none")
       && negb (display_important (d ex))
    then d ex
    else write_display (style_display (d ex)) (d ex).
Proof.
  unfold set_display. rewrite !bool_decide_eq_true_2 by done.
  apply style_set_display_restore.
Qed.

Lemma set_display_restore_same d ex e :
  same_but_style_text
    (d e) (set_display ex (style_display (d ex)) (set_display ex "none" d) e).
Proof.
  destruct (decide (e = ex)) as [->|Hne].
  - rewrite set_display_restore.
    by destruct (bool_decide _ && negb _).
  - by rewrite !set_display_other.
Qed.

(** What [getElementFromPoint] computes with an element to exclude: the
    browser is asked while the element is hidden, and the document it
    leaves is the one with the display written back. *)
Lemma getElementFromPoint_exclude x y ex w :
  getElementFromPoint x y (Some ex) w =
  (Normal (elementFromPoint (set_display ex "none" (document w)) x y),
   with_document
     (fun d => set_display ex (style_display (document w ex))
                           (set_display ex "none" d)) w).
Proof. reflexivity. Qed.

Lemma getElementFromPoint_plain x y w :
  getElementFromPoint x y None w =
  (Normal (elementFromPoint (document w) x y), w).
Proof. reflexivity. Qed.

Lemma getElementFromPoint_frame x y excl w :
  let w' := (getElementFromPoint x y excl w).2 in
  session w' = session w ∧ user w' = user w
  ∧ nativeData w' = nativeData w ∧ trace w' = trace w
  ∧ ∀ e, same_but_style_text (document w e) (document w' e).
Proof.
  destruct excl as [ex|]; simpl; repeat split; try done.
  all: apply set_display_restore_same.
Qed.

(** C10, as the code has it.  Whenever [getElementFromPoint] is called
    with an element to exclude, it returns normally, and in the document
    it leaves the excluded element's inline [display] has the value it had
    before the call.  The declaration has lost its [!important] priority,
    though, and the element carries a [style] attribute rewritten from
    its declarations, an empty one when it had no [style] attribute
    before; only an element that was hidden already by a [display: none]
    without priority is exactly as before.  No other property of the
    excluded element, and no property of any other element, has changed.
    The session, the caller's state and the trace are untouched as
    well. *)
Theorem getElementFromPoint_restores_display x y ex w :
  let res := getElementFromPoint x y (Some ex) w in
  is_normal res.1 = true
  ∧ style_display (document res.2 ex) = style_display (document w ex)
  ∧ same_but_style_text (document w ex) (document res.2 ex)
  ∧ (if bool_decide (style_display (document w ex) = "none")
        && negb (display_important (document w ex))
     then document res.2 ex = document w ex
     else display_important (document res.2 ex) = false
          ∧ style_attribute (document res.2 ex) = StyleSerialized)
  ∧ (∀ e, e ≠ ex → document res.2 e = document w e)
  ∧ session res.2 = session w
  ∧ user res.2 = user w
  ∧ nativeData res.2 = nativeData w
  ∧ trace res.2 = trace w.
Proof.
  intros res. subst res. rewrite getElementFromPoint_exclude. simpl.
  split; [done|]. split; [by rewrite set_display_same|].
  split; [apply set_display_restore_same|].
  split; [|split; [by intros e He; rewrite !set_display_other|done]].
  rewrite set_display_restore.
  by destruct (bool_decide _ && negb _).
Qed.

(** ** Calling handlers *)

Lemma setData_fold_frame b kvs w :
  let w' := fold_left (setData b) kvs w in
  isDragging (session w') = isDragging (session w)
  ∧ draggedElement (session w') = draggedElement (session w)
  ∧ currentDropTarget (session w') = currentDropTarget (session w)
  ∧ document w' = document w ∧ user w' = user w ∧ trace w' = trace w.
Proof.
  revert w. induction kvs as [|kv kvs IH]; intros w; simpl; [done|].
  destruct (IH (setData b w kv)) as (-> & -> & -> & -> & -> & ->). done.
Qed.

(** A handler that is given no [setData] cannot touch the session. *)
Lemma call_session name f arg b w :
  match arg with Synthetic se => se_setData se = false | Native _ => True end →
  session (call name f arg b w).2 = session w.
Proof. destruct arg as [ev|se]; simpl; [done|]. by intros ->. Qed.

Lemma call_trace name f arg b w :
  trace (call name f arg b w).2 = trace w ++ [ACall name arg].
Proof.
  unfold call. simpl. destruct arg as [ev|se]; [done|].
  destruct (se_setData se); [|done].
  by destruct (setData_fold_frame b
    (r_setData (fn_run f (Synthetic se) (document w) (user w)))
    {| session := session w;
       document := r_dom (fn_run f (Synthetic se) (document w) (user w));
       user := r_user (fn_run f (Synthetic se) (document w) (user w));
       nativeData := nativeData w;
       trace := trace w ++ [ACall name (Synthetic se)] |})
    as (_ & _ & _ & _ & _ & ->).
Qed.

Lemma call_completion name f arg b w :
  (call name f arg b w).1 =
  if r_throws (fn_run f arg (document w) (user w)) then Throw else Normal tt.
Proof. reflexivity. Qed.

(** ** Touch end and touch cancel *)

Ltac run_closure :=
  unfold touchEndHandler, mouseDropHandler, mouseDragEndHandler,
    unifiedDragOver,
    set_isDragging, set_draggedElement, set_currentDropTarget, set_dragData,
    preventDefault, bind, gets, modify, ret; simpl.

(** The three ways [touchEndHandler] can end: at once when no session is
    active; with the reset done when it completes; with the session as it
    was when a handler threw. *)
Lemma touchEndHandler_outcome handlers event w :
  if isDragging (session w)
  then match (touchEndHandler handlers event w).1 with
       | Normal _ => session (touchEndHandler handlers event w).2 = emptySession
       | Throw => session (touchEndHandler handlers event w).2 = session w
       end
  else touchEndHandler handlers event w = (Normal tt, w).
Proof.
  run_closure. destruct (isDragging (session w)) eqn:Hactive; simpl; [|done].
  destruct (draggedElement (session w)) as [dragged|]; simpl;
    destruct (elementFromPoint _ _ _) as [target|];
    destruct (handlers_drop handlers) as [fdrop|];
    destruct (handlers_dragEnd handlers) as [fend|]; simpl;
    repeat (match goal with
            | |- context [r_throws ?r] => destruct (r_throws r) eqn:?; simpl
            end); done.
Qed.

(** C2, as the code has it.  A touch-end or touch-cancel event processed
    while a session is active clears the session to the empty state when
    every handler it invokes returns normally.  There is no guaranteed
    clean-up: when the drop handler or the drag-end handler throws, the
    listener ends with that exception and the session is left exactly as it
    was, still active. *)
Theorem touchEnd_clears_unless_thrown handlers event w :
  isDragging (session w) = true →
  match (touchEndHandler handlers event w).1 with
  | Normal _ => session (touchEndHandler handlers event w).2 = emptySession
  | Throw =>
    session (touchEndHandler handlers event w).2 = session w
    ∧ isDragging (session (touchEndHandler handlers event w).2) = true
  end.
Proof.
  intros Hactive.
  pose proof (touchEndHandler_outcome handlers event w) as Hout.
  rewrite Hactive in Hout.
  destruct (touchEndHandler handlers event w).1; [done|].
  split; [done|]. by rewrite Hout.
Qed.

(** The drop event built by [touchEndHandler]: where it stands in the
    trace, its fields and what its [getData] returns. *)
Lemma touchEnd_emits handlers event w f :
  isDragging (session w) = true →
  handlers_drop handlers = Some f →
  is_Some (resolves event w) →
  ∃ se rest,
    emitted (touchEndHandler handlers event) w
      = APreventDefault :: ACall HDrop (Synthetic se) :: rest
    ∧ se_type se = E_drop
    ∧ se_target se = resolves event w
    ∧ se_coords se = Some (getEventCoordinates event)
    ∧ se_setData se = false
    ∧ ∃ getData, se_getData se = Some getData
      ∧ ∀ key, getData key =
          js_or (js_get (dragData (session w)) key)
                (match draggedElement (session w) with
                 | Some e => js_get (dataset (document w e)) "tileId"
                 | None => JNull
                 end).
Proof.
  intros Hactive Hf [target Htarget].
  assert (Hres : (getElementFromPoint (getEventCoordinates event).1
                    (getEventCoordinates event).2
                    (draggedElement (session w))
                    (log APreventDefault w)).1 = Normal (Some target)).
  { unfold resolves in Htarget.
    destruct (draggedElement (session w)); simpl in *; by rewrite Htarget. }
  rewrite Htarget. unfold emitted. run_closure. rewrite Hactive, Hf. simpl.
  destruct (getElementFromPoint_frame (getEventCoordinates event).1
              (getEventCoordinates event).2 (draggedElement (session w))
              (log APreventDefault w)) as (Hs & _ & _ & Htr & Hdoc).
  destruct (getElementFromPoint _ _ _ _) as [c w1]. simpl in *. subst c.
  destruct (handlers_dragEnd handlers) as [fend|]; simpl;
    repeat (match goal with
            | |- context [r_throws ?r] => destruct (r_throws r) eqn:?; simpl
            end);
    rewrite Htr, <- ?app_assoc, drop_app_length; simpl;
    eexists; eexists; (split; [reflexivity|]); simpl;
    repeat (split; [reflexivity|]);
    eexists; (split; [reflexivity|]); intros key; simpl;
    rewrite Hs;
    (destruct (draggedElement (session w)) as [dragged|];
     [by destruct (Hdoc dragged) as (_ & _ & _ & -> & _)|done]).
Qed.

(** C8, as the code has it.  For a drop dispatched on touch-end with an
    active session, the event's [getData(key)] returns the value stored in
    the session payload for [key] when one is stored and it is not the
    empty string.  When nothing is stored under [key] and [key] names a
    member of [Object.prototype] (['toString'], ['constructor'],
    ['__proto__'], ...), it returns that inherited member.  In every other
    case it returns the dragged element's tile-identifier attribute
    ([undefined] when the element has none).  The event is handed to the
    drop handler right after the default action is suppressed, with the
    resolved element as target. *)
Theorem drop_getData_fallback handlers event w f dragged target :
  isDragging (session w) = true →
  draggedElement (session w) = Some dragged →
  handlers_drop handlers = Some f →
  resolves event w = Some target →
  ∃ se getData rest,
    emitted (touchEndHandler handlers event) w
      = APreventDefault :: ACall HDrop (Synthetic se) :: rest
    ∧ se_target se = Some target
    ∧ se_getData se = Some getData
    ∧ ∀ key,
        getData key =
        match dragData (session w) !! key with
        | Some v =>
          if bool_decide (v = "")
          then js_get (dataset (document w dragged)) "tileId"
          else JStr v
        | None =>
          if bool_decide (key ∈ Object_prototype)
          then JInherited key
          else js_get (dataset (document w dragged)) "tileId"
        end.
Proof.
  intros Hactive Hd Hf Ht.
  destruct (touchEnd_emits handlers event w f Hactive Hf)
    as (se & rest & Hem & _ & Htarget & _ & _ & getData & Hget & Hkeys).
  { rewrite Ht. by eexists. }
  exists se, getData, rest. rewrite Hem, Htarget, Ht, Hget.
  repeat (split; [reflexivity|]). intros key. rewrite Hkeys, Hd.
  unfold js_or. destruct (dragData (session w) !! key) as [v|] eqn:Hk.
  - replace (js_get (dragData (session w)) key) with (JStr v)
      by (unfold js_get; by rewrite Hk).
    simpl. by case_bool_decide.
  - replace (js_get (dragData (session w)) key)
      with (if bool_decide (key ∈ Object_prototype)
            then JInherited key else JUndefined)
      by (unfold js_get; by rewrite Hk).
    by case_bool_decide.
Qed.


(** ** The session across events *)

Ltac case_throws :=
  repeat (match goal with
          | |- context [r_throws ?r] => destruct (r_throws r) eqn:?; simpl
          end).

Lemma session_step_invariant s s' :
  session_step s s' → session_invariant s → session_invariant s'.
Proof.
  unfold session_invariant.
  intros [-> | [Hon | (Hoff & Hd & Ht)]] Hinv Hidle; [auto|congruence|done].
Qed.

Lemma unifiedDragStart_session handlers event w :
  let s' := session (unifiedDragStart handlers event w).2 in
  s' = session w ∨ isDragging s' = true.
Proof.
  unfold unifiedDragStart. run_closure.
  destruct (_ || _); [|by left].
  destruct (bool_decide (ev_type event = E_touchstart)); simpl;
    (destruct (_ || _); simpl; [by left|right]);
    (destruct (handlers_dragStart handlers) as [f|]; simpl; [|done]);
    match goal with
    | |- context [fold_left (setData ?b) ?kvs ?w0] =>
      destruct (setData_fold_frame b kvs w0) as (-> & _)
    end; done.
Qed.

Lemma unifiedDragOver_session handlers event w :
  let s' := session (unifiedDragOver handlers event w).2 in
  s' = session w ∨ (isDragging (session w) = true ∧ isDragging s' = true).
Proof.
  run_closure.
  destruct (bool_decide (ev_type event = E_touchmove)) eqn:Hmove; simpl.
  - destruct (bool_decide (ev_type event = E_dragover)) eqn:Hover; simpl.
    { apply bool_decide_eq_true_1 in Hmove, Hover. congruence. }
    destruct (isDragging (session w)) eqn:Hactive; simpl; [|by left].
    destruct (getElementFromPoint_frame (getEventCoordinates event).1
                (getEventCoordinates event).2 (draggedElement (session w))
                (log APreventDefault w)) as (Hs & _).
    destruct (getElementFromPoint _ _ _ _) as [[below|] w1]; simpl in *;
      [|by left].
    clear Hmove Hover. case_bool_decide; simpl; [|by left].
    right. split; [done|].
    destruct (currentDropTarget (session w1)), (handlers_dragLeave handlers),
      below, (handlers_dragOver handlers); simpl; case_throws;
      rewrite ?Hs; simpl; done.
  - rewrite orb_false_r.
    destruct (bool_decide (ev_type event = E_dragover)); simpl; [|by left].
    destruct (handlers_dragOver handlers); simpl; by left.
Qed.

Lemma touchEndHandler_session handlers event w :
  let s' := session (touchEndHandler handlers event w).2 in
  s' = session w ∨ s' = emptySession.
Proof.
  pose proof (touchEndHandler_outcome handlers event w) as H.
  destruct (isDragging (session w)).
  - destruct (touchEndHandler handlers event w).1; auto.
  - left. by rewrite H.
Qed.

Lemma mouseDropHandler_session handlers event w :
  session (mouseDropHandler handlers event w).2 = session w.
Proof. run_closure. by destruct (handlers_drop handlers). Qed.

Lemma mouseDragEndHandler_session handlers event w :
  let res := mouseDragEndHandler handlers event w in
  match res.1 with
  | Normal _ =>
    session res.2 =
    {| isDragging := false; draggedElement := None; currentDropTarget := None;
       dragData := dragData (session w) |}
  | Throw => session res.2 = session w
  end.
Proof. run_closure. destruct (handlers_dragEnd handlers); simpl; by case_throws. Qed.

Lemma deliver_session_step handlers event w :
  session_step (session w) (session (deliver handlers event w).2).
Proof.
  unfold deliver, session_step.
  destruct (ev_type event) eqn:Htype.
  - destruct (unifiedDragStart_session handlers event w); auto.
  - destruct (unifiedDragOver_session handlers event w) as [|[]]; auto.
  - left. destruct (handlers_dragLeave handlers); done.
  - left. apply mouseDropHandler_session.
  - pose proof (mouseDragEndHandler_session handlers event w) as H. simpl in H.
    destruct (mouseDragEndHandler handlers event w).1; [|by left].
    right; right. by rewrite H.
  - unfold touchStartHandler. run_closure.
    destruct (closest _ _ _); [|by left].
    destruct (unifiedDragStart_session handlers event w); auto.
  - destruct (unifiedDragOver_session handlers event w) as [|[]]; auto.
  - destruct (touchEndHandler_session handlers event w) as [H|H]; rewrite H; auto.
  - destruct (touchEndHandler_session handlers event w) as [H|H]; rewrite H; auto.
Qed.

(** In every world the page can reach, whatever the handlers do (throwing
    included), an idle session names neither a dragged element nor a drop
    target. *)
Lemma reachable_session_invariant handlers w :
  reachable handlers w → session_invariant (session w).
Proof.
  induction 1 as [w Hinit | w event _ IH | w w' _ IH Hsame].
  - rewrite Hinit. done.
  - eapply session_step_invariant; [apply deliver_session_step|done].
  - by rewrite Hsame.
Qed.

(** C1, as the code has it.  In every reachable state [active == false]
    implies that [draggedElement] and [dropTarget] are none.  A touch-end
    or touch-cancel event processed while a session is active, with
    handlers that return normally, leaves exactly the initial empty state.
    A native drag-end whose handler returns normally leaves [active=false],
    [draggedElement=none] and [dropTarget=none], which is where the touch
    path ends too.  A native drop does not end the session: it leaves the
    session state as it was. *)
Theorem session_after_end_events handlers event w :
  reachable handlers w →
  let res := deliver handlers event w in
  (isDragging (session w) = false →
     draggedElement (session w) = None ∧ currentDropTarget (session w) = None)
  ∧ (ev_type event = E_touchend ∨ ev_type event = E_touchcancel →
     isDragging (session w) = true →
     res.1 = Normal tt →
     session res.2 = emptySession)
  ∧ (ev_type event = E_dragend →
     res.1 = Normal tt →
     isDragging (session res.2) = false
     ∧ draggedElement (session res.2) = None
     ∧ currentDropTarget (session res.2) = None)
  ∧ (ev_type event = E_drop → session res.2 = session w).
Proof.
  intros Hreach res. subst res.
  split; [apply (reachable_session_invariant handlers w Hreach)|].
  unfold deliver. split; [|split].
  - intros Htype Hactive Hnormal.
    pose proof (touchEndHandler_outcome handlers event w) as H.
    rewrite Hactive in H.
    destruct Htype as [Htype|Htype]; rewrite Htype in *;
      by rewrite Hnormal in H.
  - intros Htype Hnormal. rewrite Htype in *.
    pose proof (mouseDragEndHandler_session handlers event w) as H. simpl in H.
    rewrite Hnormal in H. by rewrite H.
  - intros Htype. rewrite Htype. apply mouseDropHandler_session.
Qed.

(** ** Traces only grow *)

Lemma extends_intro (m : M unit) :
  (∀ w, ∃ l, trace (m w).2 = trace w ++ l) → extends m.
Proof.
  intros H w. destruct (H w) as [l Hl]. unfold emitted.
  by rewrite Hl, drop_app_length.
Qed.

Lemma emitted_app (m : M unit) w l :
  trace (m w).2 = trace w ++ l → emitted m w = l.
Proof. intros H. unfold emitted. by rewrite H, drop_app_length. Qed.

Lemma unifiedDragOver_extends handlers event : extends (unifiedDragOver handlers event).
Proof.
  apply extends_intro. intros w. run_closure.
  destruct (_ || _); simpl; [|exists []; by rewrite app_nil_r].
  destruct (bool_decide (ev_type event = E_touchmove)); simpl.
  - destruct (getElementFromPoint_frame (getEventCoordinates event).1
                (getEventCoordinates event).2 (draggedElement (session w))
                (log APreventDefault w)) as (_ & _ & _ & Htr & _).
    destruct (getElementFromPoint _ _ _ _) as [[below|] w1]; simpl in *;
      [|by eexists].
    destruct (bool_decide _); simpl; [|by eexists].
    destruct (currentDropTarget (session w1)), (handlers_dragLeave handlers),
      below, (handlers_dragOver handlers); simpl; case_throws;
      rewrite ?call_trace; simpl; rewrite ?call_trace, Htr, <- ?app_assoc;
      by eexists.
  - destruct (handlers_dragOver handlers); simpl; rewrite <- ?app_assoc;
      by eexists.
Qed.

Lemma touchEndHandler_extends handlers event : extends (touchEndHandler handlers event).
Proof.
  apply extends_intro. intros w. run_closure.
  destruct (isDragging (session w)); simpl; [|exists []; by rewrite app_nil_r].
  destruct (getElementFromPoint_frame (getEventCoordinates event).1
              (getEventCoordinates event).2 (draggedElement (session w))
              (log APreventDefault w)) as (_ & _ & _ & Htr & _).
  destruct (getElementFromPoint _ _ _ _) as [[target|] w1]; simpl in *;
    [|by eexists].
  destruct target, (handlers_drop handlers), (handlers_dragEnd handlers);
    simpl; case_throws; rewrite Htr, <- ?app_assoc; by eexists.
Qed.

(** ** Touch moves *)

(** Go through the entries of a concrete trace. *)
Ltac in_trace H :=
  repeat (apply elem_of_cons in H as [H|H]; [try discriminate H|]);
  [..|by apply elem_of_nil in H];
  try (injection H as ->).

Lemma getElementFromPoint_resolves event w a :
  (getElementFromPoint (getEventCoordinates event).1 (getEventCoordinates event).2
     (draggedElement (session w)) (log a w)).1 = Normal (resolves event w).
Proof. unfold resolves. by destruct (draggedElement (session w)). Qed.

(** One touch move, seen from outside: what it makes of the session and
    which handlers it calls. *)
Lemma touchmove_step handlers event w :
  ev_type event = E_touchmove →
  let res := unifiedDragOver handlers event w in
  let out := emitted (unifiedDragOver handlers event) w in
  (currentDropTarget (session w) = resolves event w →
   session res.2 = session w
   ∧ ∀ a, a ∈ out → a = APreventDefault)
  ∧ ((currentDropTarget (session res.2) = resolves event w
      ∧ (count_calls HDragOver out ≤ 1)%nat)
     ∨ (session res.2 = session w ∧ count_calls HDragOver out = 0%nat))
  ∧ (∀ se, ACall HDragOver (Synthetic se) ∈ out →
     isDragging (session w) = true
     ∧ is_Some (se_target se)
     ∧ se_target se = resolves event w
     ∧ se_target se ≠ currentDropTarget (session w)).
Proof.
  intros Hmove res out. subst res out.
  pose proof (unifiedDragOver_extends handlers event w) as Hext.
  assert (Hout : ∀ l, trace (unifiedDragOver handlers event w).2 = trace w ++ l →
                      emitted (unifiedDragOver handlers event) w = l).
  { intros l Hl. by apply emitted_app. }
  clear Hext. revert Hout. run_closure. rewrite Hmove. simpl.
  destruct (isDragging (session w)) eqn:Hactive; simpl.
  2:{ intros Hout. rewrite (Hout []) by (by rewrite app_nil_r).
      split; [split; [done|by intros a Ha%elem_of_nil]|].
      split; [by right|]. by intros se Hse%elem_of_nil. }
  pose proof (getElementFromPoint_resolves event w APreventDefault) as Hres.
  destruct (getElementFromPoint_frame (getEventCoordinates event).1
              (getEventCoordinates event).2 (draggedElement (session w))
              (log APreventDefault w)) as (Hs & _ & _ & Htr & _).
  destruct (getElementFromPoint _ _ _ _) as [c w1]. simpl in *. subst c.
  rewrite Hs. case_bool_decide as Hchg; simpl.
  - (* the resolved element differs from the current drop target *)
    intros Hout. split; [intros Heq; by rewrite Heq in Hchg|].
    destruct (currentDropTarget (session w)) as [prev|],
      (handlers_dragLeave handlers) as [fl|],
      (resolves event w) as [below|] eqn:Hbelow,
      (handlers_dragOver handlers) as [fo|]; simpl in *; case_throws;
      (erewrite Hout by
         (simpl; rewrite ?call_trace; simpl; rewrite ?call_trace;
          rewrite Htr, <- ?app_assoc; reflexivity));
      rewrite ?Hs; simpl;
      (split;
       [first [ left; split; [reflexivity | vm_compute; lia]
              | right; split; reflexivity ]|]);
      intros se Hse; in_trace Hse; simpl; eauto.
  - (* unchanged: nothing is dispatched *)
    intros Hout. rewrite (Hout [APreventDefault]) by done.
    split; [split; [done|by intros a ->%list_elem_of_singleton]|].
    split; [right; by split|]. intros se Hse. in_trace Hse.
Qed.

Lemma count_calls_app h (l1 l2 : list Action) :
  count_calls h (l1 ++ l2) = (count_calls h l1 + count_calls h l2)%nat.
Proof. unfold count_calls. by rewrite List.filter_app, length_app. Qed.

Lemma count_calls_quiet h (l : list Action) :
  (∀ a, a ∈ l → a = APreventDefault) → count_calls h l = 0%nat.
Proof.
  induction l as [|a l IH]; intros Hall; [done|].
  rewrite (Hall a) by apply list_elem_of_here.
  unfold count_calls in *. simpl. apply IH. intros b Hb.
  apply Hall. by apply list_elem_of_further.
Qed.

Lemma touchmoves_calls handlers r events :
  ∀ w, touchmoves_resolving_to handlers r events w →
  ∃ out,
    trace (run handlers events w) = trace w ++ out
    ∧ (count_calls HDragOver out ≤ 1)%nat
    ∧ (currentDropTarget (session w) = r →
       session (run handlers events w) = session w
       ∧ ∀ a, a ∈ out → a = APreventDefault)
    ∧ (∀ se, ACall HDragOver (Synthetic se) ∈ out → se_target se = r).
Proof.
  induction events as [|event rest IH]; intros w Hmoves; simpl in *.
  { exists []. rewrite app_nil_r. split; [done|]. split; [vm_compute; lia|].
    split; [intros _; split; [done|by intros a Ha%elem_of_nil]|].
    by intros se Hse%elem_of_nil. }
  destruct Hmoves as (Hmove & Hres & Hrest).
  destruct (touchmove_step handlers event w Hmove) as (Hsame & Hstep & Hover).
  pose proof (unifiedDragOver_extends handlers event w) as Hext.
  assert (Hd : deliver handlers event w = unifiedDragOver handlers event w).
  { unfold deliver. by rewrite Hmove. }
  rewrite Hd in *. clear Hd.
  set (w1 := (unifiedDragOver handlers event w).2) in *.
  set (out1 := emitted (unifiedDragOver handlers event) w) in *.
  destruct (IH w1 Hrest) as (out2 & Htr & Hcount & Hquiet & Htargets).
  exists (out1 ++ out2). rewrite Htr, Hext, <- app_assoc.
  split; [done|]. rewrite Hres in *. split; [|split].
  - rewrite count_calls_app.
    destruct Hstep as [[Hnow Hone] | [Hs Hzero]].
    + destruct (Hquiet Hnow) as [_ Hq].
      rewrite (count_calls_quiet HDragOver out2 Hq). lia.
    + rewrite Hzero. lia.
  - intros Hcur. destruct (Hsame Hcur) as [Hs Hq1].
    destruct Hquiet as [Hs2 Hq2]; [by rewrite Hs|].
    split; [by rewrite Hs2|].
    intros a [Ha|Ha]%elem_of_app; auto.
  - intros se [Hse|Hse]%elem_of_app; [|auto].
    by destruct (Hover se Hse) as (_ & _ & -> & _).
Qed.

(** C3.  Touch-move events delivered one after the other, each resolving
    to the same element [r] under the touch point: the drag-over handler is
    called at most once over the whole sequence, and only with target [r];
    and when the session's drop target already is [r], no drag-leave and no
    drag-over is dispatched at all and the session stays as it is. *)
Theorem touchmove_dragOver_at_most_once handlers r events w :
  touchmoves_resolving_to handlers r events w →
  let out := drop (length (trace w)) (trace (run handlers events w)) in
  (count_calls HDragOver out ≤ 1)%nat
  ∧ (∀ se, ACall HDragOver (Synthetic se) ∈ out → se_target se = r)
  ∧ (currentDropTarget (session w) = r →
     count_calls HDragOver out = 0%nat
     ∧ count_calls HDragLeave out = 0%nat
     ∧ session (run handlers events w) = session w).
Proof.
  intros Hmoves out. subst out.
  destruct (touchmoves_calls handlers r events w Hmoves)
    as (out & -> & Hcount & Hquiet & Htargets).
  rewrite drop_app_length. split; [done|]. split; [done|].
  intros Hcur. destruct (Hquiet Hcur) as [Hs Hq].
  by rewrite !(count_calls_quiet _ out Hq).
Qed.

(** ** The dragged element is never the resolved element *)

Lemma touchEnd_drop_calls handlers event w se :
  ACall HDrop (Synthetic se) ∈ emitted (touchEndHandler handlers event) w →
  isDragging (session w) = true
  ∧ is_Some (se_target se)
  ∧ se_target se = resolves event w.
Proof.
  assert (Hout : ∀ l, trace (touchEndHandler handlers event w).2 = trace w ++ l →
                      emitted (touchEndHandler handlers event) w = l).
  { intros l Hl. by apply emitted_app. }
  revert Hout. run_closure.
  destruct (isDragging (session w)) eqn:Hactive; simpl.
  2:{ intros Hout. rewrite (Hout []) by (by rewrite app_nil_r).
      by intros Hse%elem_of_nil. }
  pose proof (getElementFromPoint_resolves event w APreventDefault) as Hres.
  destruct (getElementFromPoint_frame (getEventCoordinates event).1
              (getEventCoordinates event).2 (draggedElement (session w))
              (log APreventDefault w)) as (Hs & _ & _ & Htr & _).
  destruct (getElementFromPoint _ _ _ _) as [c w1]. simpl in *. subst c.
  destruct (resolves event w) as [target|] eqn:Htarget,
    (handlers_drop handlers) as [fd|],
    (handlers_dragEnd handlers) as [fe|]; simpl in *; case_throws;
    intros Hout;
    (erewrite Hout by (simpl; rewrite Htr, <- ?app_assoc; reflexivity));
    intros Hse; in_trace Hse; simpl; eauto.
Qed.

Section Visible.

(** The browser's side: an element whose inline [display] is [none] has
    no box and is never what [elementFromPoint] returns. *)
Hypothesis elementFromPoint_visible :
  ∀ d x y e, elementFromPoint d x y = Some e → style_display (d e) ≠ "none".

Lemma getElementFromPoint_excludes x y ex w :
  (getElementFromPoint x y (Some ex) w).1 ≠ Normal (Some ex).
Proof.
  rewrite getElementFromPoint_exclude. simpl. intros [= Hefp].
  apply elementFromPoint_visible in Hefp. by rewrite set_display_same in Hefp.
Qed.

Lemma resolves_not_dragged event w :
  is_Some (resolves event w) → resolves event w ≠ draggedElement (session w).
Proof.
  intros [e He] Heq. rewrite He in Heq. unfold resolves in He.
  rewrite <- Heq in He.
  pose proof (getElementFromPoint_excludes (getEventCoordinates event).1
                (getEventCoordinates event).2 e w) as Hex.
  destruct (getElementFromPoint _ _ _ _).1; congruence.
Qed.

(** C4.  Provided the browser never returns a [display: none] element
    from [elementFromPoint]: resolving the element at a point with an
    element to exclude never yields that element; hence during a touch
    move the target of every drag-over event handed to the handler, and
    the drop target the move records in the session, is an element other
    than the dragged one, and on touch end or touch cancel so is the
    target of the drop event. *)
Theorem dragged_element_never_drop_target handlers event w :
  (∀ x y ex, (getElementFromPoint x y (Some ex) w).1 ≠ Normal (Some ex))
  ∧ (ev_type event = E_touchmove →
     (∀ se, ACall HDragOver (Synthetic se)
              ∈ emitted (unifiedDragOver handlers event) w →
        is_Some (se_target se)
        ∧ se_target se ≠ draggedElement (session w))
     ∧ (∀ t, currentDropTarget (session (unifiedDragOver handlers event w).2)
               = Some t →
        currentDropTarget (session w) = Some t
        ∨ draggedElement (session w) ≠ Some t))
  ∧ (∀ se, ACall HDrop (Synthetic se)
             ∈ emitted (touchEndHandler handlers event) w →
     is_Some (se_target se)
     ∧ se_target se ≠ draggedElement (session w)).
Proof.
  split; [intros x y ex; apply getElementFromPoint_excludes|]. split.
  - intros Hmove.
    destruct (touchmove_step handlers event w Hmove) as (_ & Hstep & Hover).
    split.
    + intros se Hse. destruct (Hover se Hse) as (_ & Hsome & Hres & _).
      split; [done|]. rewrite Hres in *. by apply resolves_not_dragged.
    + intros t Ht. destruct Hstep as [[Hnow _] | [Hs _]].
      * right. rewrite Hnow in Ht. intros Hd.
        apply (resolves_not_dragged event w); [by rewrite Ht|congruence].
      * left. by rewrite <- Hs.
  - intros se Hse.
    destruct (touchEnd_drop_calls handlers event w se Hse) as (_ & Hsome & Hres).
    split; [done|]. rewrite Hres in *. by apply resolves_not_dragged.
Qed.

End Visible.

(** ** Drag start *)

Lemma matches_interactive n : matches sel_interactive n = true ↔ interactive n.
Proof.
  unfold matches, sel_interactive, interactive. simpl.
  rewrite !orb_true_iff, !bool_decide_eq_true. intuition discriminate.
Qed.

Lemma closest_interactive d t :
  is_Some (closest d sel_interactive t) ↔ within_interactive d t.
Proof.
  unfold closest, within_interactive. split.
  - intros [a Ha]. apply List.find_some in Ha as [Hin Hm].
    apply matches_interactive in Hm. destruct Hin as [<-|Hin]; [by left|].
    right. exists a. by rewrite list_elem_of_In.
  - intros Hw.
    destruct (List.find _ _) as [a|] eqn:Hfind; [by eexists|]. exfalso.
    destruct Hw as [Hi | (a & Hin & Hi)];
      apply matches_interactive in Hi.
    + pose proof (List.find_none _ _ Hfind t (or_introl eq_refl)). congruence.
    + apply list_elem_of_In in Hin.
      pose proof (List.find_none _ _ Hfind a (or_intror Hin)). congruence.
Qed.

Lemma isNonDraggableInteractive_spec d t :
  isNonDraggableInteractive d (Some t) = true ↔ within_interactive d t.
Proof.
  unfold isNonDraggableInteractive.
  rewrite !orb_true_iff, !bool_decide_eq_true, closest_interactive.
  unfold within_interactive, interactive. tauto.
Qed.

Lemma unifiedDragStart_ineligible handlers event w :
  eligible (document w) (startTarget elementFromPoint event w) = false →
  unifiedDragStart handlers event w = (Normal tt, w).
Proof.
  unfold eligible, startTarget, unifiedDragStart. intros Hel.
  apply negb_false_iff in Hel. run_closure.
  destruct (bool_decide (ev_type event = E_dragstart)
            || bool_decide (ev_type event = E_touchstart)); [|done].
  destruct (bool_decide (ev_type event = E_touchstart)); simpl in *;
    by rewrite Hel.
Qed.

Lemma unifiedDragStart_eligible handlers event w :
  ev_type event = E_dragstart ∨ ev_type event = E_touchstart →
  eligible (document w) (startTarget elementFromPoint event w) = true →
  let res := unifiedDragStart handlers event w in
  isDragging (session res.2) = true
  ∧ draggedElement (session res.2) = startTarget elementFromPoint event w
  ∧ ∀ f, handlers_dragStart handlers = Some f →
      ∃ se, emitted (unifiedDragStart handlers event) w
              = [ACall HDragStart (Synthetic se)]
            ∧ se_type se = E_dragstart
            ∧ se_target se = startTarget elementFromPoint event w
            ∧ se_setData se = true.
Proof.
  unfold eligible, startTarget, unifiedDragStart, emitted. intros Htype Hel.
  apply negb_true_iff in Hel. run_closure.
  assert (Hty : bool_decide (ev_type event = E_dragstart)
                || bool_decide (ev_type event = E_touchstart) = true).
  { destruct Htype as [-> | ->]; done. }
  rewrite Hty. clear Hty Htype.
  destruct (bool_decide (ev_type event = E_touchstart)); simpl in *;
    rewrite Hel; simpl;
    (destruct (handlers_dragStart handlers) as [f|]; simpl;
     [|by repeat split]);
    match goal with
    | |- context [fold_left (setData ?b) ?kvs ?w0] =>
      destruct (setData_fold_frame b kvs w0) as (-> & -> & _ & _ & _ & ->)
    end; simpl;
    (split; [done|]); (split; [done|]);
    intros ? [= <-]; rewrite drop_app_length; by eexists.
Qed.

Lemma setData_fold_dragData b kvs w :
  dragData (session (fold_left (setData b) kvs w))
  = fold_left (fun m kv => js_set m kv.1 kv.2) kvs (dragData (session w)).
Proof.
  revert w. induction kvs as [|kv kvs IH]; intros w; simpl; [done|].
  by rewrite IH.
Qed.

(** The payload a drag starts with is what the start handler stored with
    [setData], in the order of its calls, on top of the empty object. *)
Lemma unifiedDragStart_payload handlers event w f :
  ev_type event = E_dragstart ∨ ev_type event = E_touchstart →
  eligible (document w) (startTarget elementFromPoint event w) = true →
  handlers_dragStart handlers = Some f →
  ∃ se, emitted (unifiedDragStart handlers event) w
          = [ACall HDragStart (Synthetic se)]
        ∧ dragData (session (unifiedDragStart handlers event w).2)
          = fold_left (fun m kv => js_set m kv.1 kv.2)
                      (r_setData (fn_run f (Synthetic se) (document w) (user w)))
                      ∅.
Proof.
  unfold eligible, startTarget, unifiedDragStart, emitted.
  intros Htype Hel Hf. apply negb_true_iff in Hel. run_closure.
  assert (Hty : bool_decide (ev_type event = E_dragstart)
                || bool_decide (ev_type event = E_touchstart) = true).
  { destruct Htype as [-> | ->]; done. }
  rewrite Hty, Hf. clear Hty Htype.
  destruct (bool_decide (ev_type event = E_touchstart)); simpl in *;
    rewrite Hel; simpl;
    match goal with
    | |- context [fold_left (setData ?b) ?kvs ?w0] =>
      rewrite (setData_fold_dragData b kvs w0);
      destruct (setData_fold_frame b kvs w0) as (_ & _ & _ & _ & _ & ->)
    end; simpl;
    rewrite drop_app_length; by eexists.
Qed.

(** C5, as the code has it.  An element whose tile-identifier attribute is
    a non-empty string, with no draggable flag and no tile class needed,
    passes the start test of the unified start routine when it is not, and
    is not contained in, a button, link or input; an element that is, or
    is contained in, a button, link or input never passes it, whatever else
    it carries.  A target that fails the test (or a point with no element)
    leaves the session and everything else untouched and the start handler
    uncalled; one that passes opens the session on that element and is
    handed to the start handler.  For touch input the routine is entered
    only when the touched node is, or is contained in, an element with the
    tile class or marked drag-enabled; otherwise nothing happens. *)
Theorem start_eligibility handlers event w d t :
  (∀ id, dataset (d t) !! "tileId" = Some id → id ≠ "" →
         ¬ within_interactive d t → eligible d (Some t) = true)
  ∧ (within_interactive d t → eligible d (Some t) = false)
  ∧ (eligible (document w) (startTarget elementFromPoint event w) = false →
     unifiedDragStart handlers event w = (Normal tt, w))
  ∧ (ev_type event = E_dragstart ∨ ev_type event = E_touchstart →
     eligible (document w) (startTarget elementFromPoint event w) = true →
     isDragging (session (unifiedDragStart handlers event w).2) = true
     ∧ draggedElement (session (unifiedDragStart handlers event w).2)
       = startTarget elementFromPoint event w
     ∧ ∀ f, handlers_dragStart handlers = Some f →
         ∃ se, emitted (unifiedDragStart handlers event) w
                 = [ACall HDragStart (Synthetic se)]
               ∧ se_target se = startTarget elementFromPoint event w)
  ∧ (closest (document w) sel_tile (ev_target event) = None →
     touchStartHandler handlers event w = (Normal tt, w)).
Proof.
  split; [|split; [|split; [|split]]].
  - intros id Hid Hne Hnot. unfold eligible.
    destruct (isNonDraggableInteractive d (Some t)) eqn:Hint.
    { by apply isNonDraggableInteractive_spec in Hint. }
    unfold isDraggableElement, js_get. rewrite Hid. simpl.
    rewrite (bool_decide_eq_false_2 _ Hne). simpl. by rewrite orb_true_r.
  - intros Hw. apply isNonDraggableInteractive_spec in Hw.
    unfold eligible. rewrite Hw. by rewrite orb_true_r.
  - apply unifiedDragStart_ineligible.
  - intros Htype Hel.
    destruct (unifiedDragStart_eligible handlers event w Htype Hel)
      as (Hon & Hd & Hcall).
    split; [done|]. split; [done|]. intros f Hf.
    destruct (Hcall f Hf) as (se & Hem & _ & Ht & _). eauto.
  - intros Hnone. unfold touchStartHandler. run_closure. by rewrite Hnone.
Qed.

(** ** The listener registry *)

Lemma elem_of_addEventListener type cb (ls : list Listener) l :
  l ∈ addEventListener type cb ls ↔ l ∈ ls ∨ l = mkListener type cb.
Proof.
  unfold addEventListener. case_bool_decide as Hin.
  - split; [by left|]. by intros [?| ->].
  - by rewrite elem_of_app, list_elem_of_singleton.
Qed.

Lemma elem_of_removeEventListener type cb (ls : list Listener) l :
  l ∈ removeEventListener type cb ls ↔ l ∈ ls ∧ l ≠ mkListener type cb.
Proof. unfold removeEventListener. rewrite list_elem_of_filter. tauto. Qed.

Ltac listed :=
  unfold registrations, closure_listeners;
  rewrite ?elem_of_app, ?elem_of_cons, ?elem_of_nil.

Lemma setup_listeners handlers (p : Page U) l :
  l ∈ listeners (setupDragAndDrop handlers p)
  ↔ l ∈ listeners p ∨ l ∈ registrations handlers (setupCalls p).
Proof.
  unfold setupDragAndDrop. simpl.
  destruct (handlers_dragLeave handlers) as [f|] eqn:Hleave;
    rewrite !elem_of_addEventListener; listed; rewrite Hleave; listed; tauto.
Qed.

Lemma teardown_after_setup_listeners handlers (p : Page U) l :
  l ∈ listeners (removeDragAndDrop (setupDragAndDrop handlers p))
  ↔ l ∈ listeners p ∧ l ∉ registrations handlers (setupCalls p).
Proof.
  unfold removeDragAndDrop.
  change (_dragHandlers (setupDragAndDrop handlers p))
    with (Some {| dh_unifiedDragStart := Closure (setupCalls p) C_unifiedDragStart;
                  dh_unifiedDragOver := Closure (setupCalls p) C_unifiedDragOver;
                  dh_mouseDropHandler := Closure (setupCalls p) C_mouseDropHandler;
                  dh_mouseDragEndHandler := Closure (setupCalls p) C_mouseDragEndHandler;
                  dh_touchEndHandler := Closure (setupCalls p) C_touchEndHandler;
                  dh_touchStartHandler := Closure (setupCalls p) C_touchStartHandler;
                  originalHandlers := handlers |}).
  cbn [listeners dh_unifiedDragStart dh_unifiedDragOver dh_mouseDropHandler
       dh_mouseDragEndHandler dh_touchEndHandler dh_touchStartHandler
       originalHandlers].
  destruct (handlers_dragLeave handlers) as [f|] eqn:Hleave;
    rewrite !elem_of_removeEventListener, setup_listeners;
    unfold not; listed; rewrite Hleave; listed; tauto.
Qed.

Lemma setup_closures_known handlers (p : Page U) :
  closures_known p → closures_known (setupDragAndDrop handlers p).
Proof.
  intros Hknown t n c. rewrite setup_listeners.
  change (setupCalls (setupDragAndDrop handlers p)) with (S (setupCalls p)).
  intros [Hin|Hin]; [apply Hknown in Hin; lia|].
  revert Hin. listed.
  destruct (handlers_dragLeave handlers); listed;
    intros Hin; repeat (destruct Hin as [Hin|Hin]); try done;
    injection Hin as _ -> _; lia.
Qed.

(** C9.  Teardown is safe and idempotent.  With nothing registered by
    [setupDragAndDrop] it changes nothing; a second teardown in a row
    changes nothing more; it cannot fail.  After teardown following one
    setup, none of the listeners that setup registers is registered any
    more and every listener left was there before the setup; on a page
    where nothing else listens the listener list is empty again. *)
Theorem teardown_safe_and_idempotent handlers (p : Page U) :
  (_dragHandlers p = None → removeDragAndDrop p = p)
  ∧ removeDragAndDrop (removeDragAndDrop p) = removeDragAndDrop p
  ∧ _dragHandlers (removeDragAndDrop (setupDragAndDrop handlers p)) = None
  ∧ (∀ l, l ∈ registrations handlers (setupCalls p) →
          l ∉ listeners (removeDragAndDrop (setupDragAndDrop handlers p)))
  ∧ (∀ l, l ∈ listeners (removeDragAndDrop (setupDragAndDrop handlers p)) →
          l ∈ listeners p)
  ∧ listeners (removeDragAndDrop (setupDragAndDrop handlers freshPage)) = [].
Proof.
  split; [|split; [|split; [|split; [|split]]]].
  - intros Hnone. unfold removeDragAndDrop. by rewrite Hnone.
  - assert (Hnone : _dragHandlers (removeDragAndDrop p) = None).
    { unfold removeDragAndDrop. by destruct (_dragHandlers p) eqn:Hdh. }
    unfold removeDragAndDrop at 1. by rewrite Hnone.
  - reflexivity.
  - intros l Hl Hin. apply teardown_after_setup_listeners in Hin. tauto.
  - intros l Hin. apply teardown_after_setup_listeners in Hin. tauto.
  - apply elem_of_nil_inv. intros l Hin.
    apply teardown_after_setup_listeners in Hin as [Hin _].
    by apply elem_of_nil in Hin.
Qed.

(** C7, as the code has it.  Calling setup a second time without an
    intervening teardown is not a no-op: every listener of the first call
    stays registered, and the eight arrow-function listeners of the second
    call are registered in addition to them, so the listener list differs
    from the one after the first call alone.  [_dragHandlers] then refers
    to the second call only: a teardown leaves the first call's eight
    arrow-function listeners registered. *)
Theorem second_setup_registers_again h1 h2 (p : Page U) :
  closures_known p →
  let p1 := setupDragAndDrop h1 p in
  let p2 := setupDragAndDrop h2 p1 in
  (∀ l, l ∈ listeners p1 → l ∈ listeners p2)
  ∧ (∀ l, l ∈ closure_listeners (setupCalls p1) →
          l ∈ listeners p2 ∧ l ∉ listeners p1)
  ∧ listeners p2 ≠ listeners p1
  ∧ (∀ l, l ∈ closure_listeners (setupCalls p) →
          l ∈ listeners (removeDragAndDrop p2))
  ∧ (∀ l, l ∈ listeners p2 →
          l ∈ listeners p1 ∨ l ∈ registrations h2 (setupCalls p1)).
Proof.
  intros Hknown p1 p2.
  assert (Hknown1 : closures_known p1) by by apply setup_closures_known.
  assert (Hnew : ∀ l, l ∈ closure_listeners (setupCalls p1) →
                      l ∈ listeners p2 ∧ l ∉ listeners p1).
  { intros l Hl. split.
    - apply setup_listeners. right. unfold registrations.
      apply elem_of_app. by left.
    - intros Hin. revert Hl. unfold closure_listeners.
      rewrite ?elem_of_cons, ?elem_of_nil. intros Hl.
      repeat (destruct Hl as [Hl|Hl]); try done; subst l;
        apply Hknown1 in Hin; lia. }
  split; [|split; [done|split; [|split]]];
    [| | |intros l Hl; by apply setup_listeners].
  - intros l Hl. apply setup_listeners. by left.
  - intros Heq.
    destruct (Hnew (mkListener E_dragstart
                      (Closure (setupCalls p1) C_unifiedDragStart))) as [Hin Hout].
    { apply list_elem_of_here. }
    by rewrite Heq in Hin.
  - intros l Hl. apply teardown_after_setup_listeners. split.
    + apply setup_listeners. right. unfold registrations.
      apply elem_of_app. by left.
    + change (setupCalls p1) with (S (setupCalls p)).
      revert Hl. unfold not. listed.
      destruct (handlers_dragLeave h2); listed;
        intros Hl Hin;
        repeat (destruct Hl as [Hl|Hl]); try done; subst l;
        repeat (destruct Hin as [Hin|Hin]); try done;
        try discriminate Hin; injection Hin; lia.
Qed.

(** ** More on the drag session *)

Lemma dragover_step handlers event w f :
  ev_type event = E_dragover →
  handlers_dragOver handlers = Some f →
  trace (deliver handlers event w).2
  = trace w ++ [APreventDefault; ACall HDragOver (Native event)]
  ∧ session (deliver handlers event w).2 = session w.
Proof.
  intros Htype Hf. unfold deliver. rewrite Htype. run_closure.
  rewrite Htype, Hf. simpl. by rewrite <- app_assoc.
Qed.

Lemma dragover_run handlers f events :
  handlers_dragOver handlers = Some f →
  Forall (fun event => ev_type event = E_dragover) events →
  ∀ w, trace (run handlers events w)
       = trace w ++ flat_map (fun event =>
                                [APreventDefault; ACall HDragOver (Native event)])
                             events
       ∧ session (run handlers events w) = session w.
Proof.
  intros Hf. induction 1 as [|event events Htype _ IH]; intros w; simpl.
  { by rewrite app_nil_r. }
  destruct (dragover_step handlers event w f Htype Hf) as [Htr Hs].
  destruct (IH (deliver handlers event w).2) as [-> ->].
  by rewrite Htr, Hs, <- app_assoc.
Qed.

(** X10.  Native drag-over events are not filtered: each one has its
    default action suppressed and is handed, as it is, to the drag-over
    handler, once per event and in order, whether or not a session is
    active and whether or not the handler throws; the session is left as
    it was. *)
Theorem dragover_forwarded_every_time handlers f events w :
  handlers_dragOver handlers = Some f →
  Forall (fun event => ev_type event = E_dragover) events →
  drop (length (trace w)) (trace (run handlers events w))
  = flat_map (fun event => [APreventDefault; ACall HDragOver (Native event)])
             events
  ∧ count_calls HDragOver (drop (length (trace w))
                                (trace (run handlers events w)))
    = length events
  ∧ session (run handlers events w) = session w.
Proof.
  intros Hf Hall. destruct (dragover_run handlers f events Hf Hall w) as [-> ->].
  rewrite drop_app_length. split; [done|]. split; [|done].
  clear. induction events as [|event events IH]; [done|].
  simpl. unfold count_calls in *. simpl. by rewrite IH.
Qed.

(** X11.  A touch move that leaves the current drop target, with a
    drag-leave handler that does not throw: the default action is
    suppressed, then the drag-leave handler is called with the old target,
    then, if there is an element under the finger, the drag-over handler
    with that element and the coordinates; the session's drop target is
    the resolved element afterwards (none when the finger is over
    nothing). *)
Theorem touchmove_leaves_then_enters handlers event w prev fl fo :
  ev_type event = E_touchmove →
  isDragging (session w) = true →
  currentDropTarget (session w) = Some prev →
  resolves event w ≠ Some prev →
  handlers_dragLeave handlers = Some fl →
  never_throws fl →
  handlers_dragOver handlers = Some fo →
  emitted (unifiedDragOver handlers event) w
  = APreventDefault
    :: ACall HDragLeave
         (Synthetic {| se_type := E_dragleave; se_target := Some prev;
                       se_coords := None; se_getData := None;
                       se_setData := false |})
    :: match resolves event w with
       | Some below =>
         [ACall HDragOver
            (Synthetic {| se_type := E_dragover; se_target := Some below;
                          se_coords := Some (getEventCoordinates event);
                          se_getData := None; se_setData := false |})]
       | None => []
       end
  ∧ currentDropTarget (session (unifiedDragOver handlers event w).2)
    = resolves event w.
Proof.
  intros Hmove Hactive Hprev Hchg Hfl Hquiet Hfo.
  unfold emitted. run_closure. rewrite Hmove, Hactive, Hfl, Hfo. simpl.
  pose proof (getElementFromPoint_resolves event w APreventDefault) as Hres.
  destruct (getElementFromPoint_frame (getEventCoordinates event).1
              (getEventCoordinates event).2 (draggedElement (session w))
              (log APreventDefault w)) as (Hs & _ & _ & Htr & _).
  destruct (getElementFromPoint _ _ _ _) as [c w1]. simpl in *. subst c.
  rewrite Hs, Hprev. rewrite bool_decide_eq_true_2 by done. simpl.
  rewrite Hquiet. simpl.
  destruct (resolves event w) as [below|]; simpl;
    rewrite Htr, <- ?app_assoc, drop_app_length; done.
Qed.

(** X12.  While no session is active, touch-move, touch-end and
    touch-cancel events change nothing at all: no default action is
    suppressed (the page can scroll), no handler runs, and the page is in
    the very same state after any number of them. *)
Theorem idle_page_ignores_touches handlers events w :
  isDragging (session w) = false →
  Forall (fun event => ev_type event = E_touchmove
                       ∨ ev_type event = E_touchend
                       ∨ ev_type event = E_touchcancel) events →
  run handlers events w = w.
Proof.
  intros Hidle. induction 1 as [|event events Htype _ IH]; [done|].
  simpl. assert (Hstep : deliver handlers event w = (Normal tt, w)).
  { unfold deliver. destruct Htype as [Ht | [Ht | Ht]]; rewrite Ht;
      run_closure; by rewrite ?Ht, ?Hidle. }
  by rewrite Hstep.
Qed.

Lemma js_set_fold_lookup (kvs : list (string * string)) :
  ∀ (m : gmap string string) key,
    fold_left (fun m kv => js_set m kv.1 kv.2) kvs m !! key
    = if bool_decide (key = "__proto__") then m !! key
      else match last_set key kvs with
           | Some v => Some v
           | None => m !! key
           end.
Proof.
  induction kvs as [|[k v] kvs IH]; intros m key; simpl.
  { by case_bool_decide. }
  rewrite IH. unfold js_set. simpl.
  case_bool_decide as Hkey; [by case_bool_decide; simplify_map_eq|].
  destruct (last_set key kvs); [done|].
  repeat case_bool_decide; by simplify_map_eq.
Qed.

Lemma setData_fold_nativeData b kvs w :
  nativeData (fold_left (setData b) kvs w)
  = if b then fold_left (fun m kv => <[kv.1 := kv.2]> m) kvs (nativeData w)
    else nativeData w.
Proof.
  revert w. induction kvs as [|kv kvs IH]; intros w; simpl;
    [by destruct b|]. rewrite IH. by destruct b.
Qed.

(** X13.  A drag that starts takes nothing over from the payload of an
    earlier drag: the session payload is exactly what the start handler
    stored with [setData].  Under every key other than ['__proto__'] it
    holds the value of the handler's last [setData] call for that key, and
    nothing when there was no such call; under ['__proto__'] it never
    holds anything, whatever the handler set.  A touch start leaves the
    browser's drag data store untouched, and the drop target recorded in
    the session is not reset by the start. *)
Theorem dragStart_payload_is_fresh handlers event w f :
  ev_type event = E_dragstart ∨ ev_type event = E_touchstart →
  eligible (document w) (startTarget elementFromPoint event w) = true →
  handlers_dragStart handlers = Some f →
  ∃ se,
    emitted (unifiedDragStart handlers event) w
    = [ACall HDragStart (Synthetic se)]
    ∧ (∀ key,
         dragData (session (unifiedDragStart handlers event w).2) !! key
         = if bool_decide (key = "__proto__") then None
           else last_set key
                  (r_setData (fn_run f (Synthetic se) (document w) (user w))))
    ∧ (ev_dataTransfer event = false →
       nativeData (unifiedDragStart handlers event w).2 = nativeData w)
    ∧ currentDropTarget (session (unifiedDragStart handlers event w).2)
      = currentDropTarget (session w).
Proof.
  unfold eligible, startTarget, unifiedDragStart, emitted.
  intros Htype Hel Hf. apply negb_true_iff in Hel. run_closure.
  assert (Hty : bool_decide (ev_type event = E_dragstart)
                || bool_decide (ev_type event = E_touchstart) = true).
  { destruct Htype as [-> | ->]; done. }
  rewrite Hty, Hf. clear Hty Htype.
  destruct (bool_decide (ev_type event = E_touchstart)); simpl in *;
    rewrite Hel; simpl;
    match goal with
    | |- context [fold_left (setData ?b) ?kvs ?w0] =>
      rewrite (setData_fold_dragData b kvs w0),
        (setData_fold_nativeData b kvs w0);
      destruct (setData_fold_frame b kvs w0) as (_ & _ & -> & _ & _ & ->)
    end; simpl;
    rewrite drop_app_length; eexists; (split; [reflexivity|]);
    (split; [intros key; rewrite js_set_fold_lookup, lookup_empty;
             by repeat case_match|]);
    (split; [by intros ->|done]).
Qed.

(** X14.  A touch end or touch cancel with nothing under the finger (a
    finger off the screen, an interrupted touch) drops nothing: the default
    action is suppressed, the drop handler is not called, and the drag-end
    handler, when there is one, is called with the dragged element. *)
Theorem touchEnd_over_nothing handlers event w :
  isDragging (session w) = true →
  resolves event w = None →
  emitted (touchEndHandler handlers event) w
  = APreventDefault
    :: match handlers_dragEnd handlers with
       | Some _ =>
         [ACall HDragEnd
            (Synthetic {| se_type := E_dragend;
                          se_target := draggedElement (session w);
                          se_coords := None; se_getData := None;
                          se_setData := false |})]
       | None => []
       end.
Proof.
  intros Hactive Hnone. unfold emitted. run_closure. rewrite Hactive. simpl.
  pose proof (getElementFromPoint_resolves event w APreventDefault) as Hres.
  destruct (getElementFromPoint_frame (getEventCoordinates event).1
              (getEventCoordinates event).2 (draggedElement (session w))
              (log APreventDefault w)) as (Hs & _ & _ & Htr & _).
  destruct (getElementFromPoint _ _ _ _) as [c w1]. simpl in *. subst c.
  rewrite Hnone. simpl.
  destruct (handlers_dragEnd handlers) as [fe|]; simpl; case_throws;
    rewrite Htr, <- ?app_assoc, drop_app_length; done.
Qed.

(** X15.  A touch end over an element, with a drop handler that does not
    throw and a drag-end handler: the default action is suppressed, the
    drop handler is called with the element under the finger as target
    and the coordinates of the touch, and only then the drag-end handler,
    with the dragged element as target. *)
Theorem touchEnd_drop_then_dragEnd handlers event w target fd fe :
  isDragging (session w) = true →
  resolves event w = Some target →
  handlers_drop handlers = Some fd →
  never_throws fd →
  handlers_dragEnd handlers = Some fe →
  ∃ dropEvent,
    emitted (touchEndHandler handlers event) w
    = [APreventDefault;
       ACall HDrop (Synthetic dropEvent);
       ACall HDragEnd
         (Synthetic {| se_type := E_dragend;
                       se_target := draggedElement (session w);
                       se_coords := None; se_getData := None;
                       se_setData := false |})]
    ∧ se_type dropEvent = E_drop
    ∧ se_target dropEvent = Some target
    ∧ se_coords dropEvent = Some (getEventCoordinates event).
Proof.
  intros Hactive Htarget Hfd Hquiet Hfe.
  unfold emitted. run_closure. rewrite Hactive, Hfd, Hfe. simpl.
  pose proof (getElementFromPoint_resolves event w APreventDefault) as Hres.
  destruct (getElementFromPoint_frame (getEventCoordinates event).1
              (getEventCoordinates event).2 (draggedElement (session w))
              (log APreventDefault w)) as (Hs & _ & _ & Htr & _).
  destruct (getElementFromPoint _ _ _ _) as [c w1]. simpl in *. subst c.
  rewrite Htarget. simpl. rewrite Hquiet. simpl. case_throws;
    rewrite Htr, <- ?app_assoc, drop_app_length; by eexists.
Qed.

(** ** More on the listener registry *)

Lemma addEventListener_app_fresh type cb (ls extra : list Listener) :
  mkListener type cb ∉ ls →
  addEventListener type cb (ls ++ extra)
  = ls ++ addEventListener type cb extra.
Proof.
  intros Hfresh. unfold addEventListener.
  assert (Hiff : mkListener type cb ∈ ls ++ extra ↔ mkListener type cb ∈ extra)
    by (rewrite elem_of_app; tauto).
  rewrite (bool_decide_ext _ _ Hiff).
  case_bool_decide; [done|by rewrite app_assoc].
Qed.

Lemma filter_keeps_all (P : Listener → Prop) `{∀ l, Decision (P l)}
      (ls : list Listener) :
  (∀ l, l ∈ ls → P l) → filter P ls = ls.
Proof.
  induction ls as [|l ls IH]; intros Hall; [done|].
  rewrite filter_cons_True by (apply Hall, list_elem_of_here).
  rewrite IH; [done|]. intros l' Hl'. by apply Hall, list_elem_of_further.
Qed.

Lemma filter_drops_all (P : Listener → Prop) `{∀ l, Decision (P l)}
      (ls : list Listener) :
  (∀ l, l ∈ ls → ¬ P l) → filter P ls = [].
Proof.
  induction ls as [|l ls IH]; intros Hall; [done|].
  rewrite filter_cons_False by (apply Hall, list_elem_of_here).
  apply IH. intros l' Hl'. by apply Hall, list_elem_of_further.
Qed.

Lemma addEventListener_extends (R ls current : list Listener) type cb :
  mkListener type cb ∈ R →
  (∃ extra, current = ls ++ extra ∧ ∀ l, l ∈ extra → l ∈ R) →
  ∃ extra, addEventListener type cb current = ls ++ extra
           ∧ ∀ l, l ∈ extra → l ∈ R.
Proof.
  intros Hin (extra & -> & Hextra). unfold addEventListener.
  case_bool_decide.
  - by exists extra.
  - exists (extra ++ [mkListener type cb]). rewrite app_assoc.
    split; [done|].
    intros l [?| ->%list_elem_of_singleton]%elem_of_app; auto.
Qed.

(** The listener list after a setup: the one before, followed by entries
    that are all registrations of this call. *)
Lemma setup_listeners_app handlers (p : Page U) :
  ∃ extra, listeners (setupDragAndDrop handlers p) = listeners p ++ extra
           ∧ ∀ l, l ∈ extra → l ∈ registrations handlers (setupCalls p).
Proof.
  unfold setupDragAndDrop. cbn [listeners].
  destruct (handlers_dragLeave handlers) as [f|] eqn:Hleave;
    repeat (apply addEventListener_extends;
            [listed; rewrite Hleave; listed; tauto|]);
    exists []; (split; [by rewrite app_nil_r|by intros l ?%elem_of_nil]).
Qed.

(** X16.  Setup followed by teardown gives the listener list back as it
    was, entry by entry and in order, when none of the setup's own
    registrations was in it before (true of its fresh arrow functions on
    any page the code has produced; for the caller's drag-leave function
    it means the caller had not registered it for drag-leave himself);
    [_dragHandlers] is unset again. *)
Theorem setup_then_teardown_restores handlers (p : Page U) :
  (∀ l, l ∈ registrations handlers (setupCalls p) → l ∉ listeners p) →
  listeners (removeDragAndDrop (setupDragAndDrop handlers p)) = listeners p
  ∧ _dragHandlers (removeDragAndDrop (setupDragAndDrop handlers p)) = None.
Proof.
  intros Hfresh. split; [|done].
  destruct (setup_listeners_app handlers p) as (extra & Hsetup & Hextra).
  assert (Hfilter : listeners (removeDragAndDrop (setupDragAndDrop handlers p))
                    = filter (fun l => l ∉ registrations handlers (setupCalls p))
                             (listeners (setupDragAndDrop handlers p))).
  { unfold removeDragAndDrop.
    change (_dragHandlers (setupDragAndDrop handlers p))
      with (Some {| dh_unifiedDragStart := Closure (setupCalls p) C_unifiedDragStart;
                    dh_unifiedDragOver := Closure (setupCalls p) C_unifiedDragOver;
                    dh_mouseDropHandler := Closure (setupCalls p) C_mouseDropHandler;
                    dh_mouseDragEndHandler := Closure (setupCalls p) C_mouseDragEndHandler;
                    dh_touchEndHandler := Closure (setupCalls p) C_touchEndHandler;
                    dh_touchStartHandler := Closure (setupCalls p) C_touchStartHandler;
                    originalHandlers := handlers |}).
    cbn [listeners dh_unifiedDragStart dh_unifiedDragOver dh_mouseDropHandler
         dh_mouseDragEndHandler dh_touchEndHandler dh_touchStartHandler
         originalHandlers].
    generalize (listeners (setupDragAndDrop handlers p)). intros ls.
    unfold removeEventListener.
    destruct (handlers_dragLeave handlers) as [f|] eqn:Hleave;
      rewrite !list_filter_filter; apply list_filter_iff; intros l;
      unfold not; listed; rewrite Hleave; listed; tauto. }
  rewrite Hfilter, Hsetup, filter_app.
  rewrite filter_keeps_all, filter_drops_all, app_nil_r; [done| |].
  - intros l Hl Hnot. by apply Hnot, Hextra.
  - intros l Hl Hin. by apply (Hfresh l).
Qed.

End Proofs.

(** * Concrete runs *)

Lemma hitTest_visible d x y e :
  Demo.hitTest d x y = Some e → style_display (d e) ≠ "none".
Proof.
  unfold Demo.hitTest. intros Hhit.
  destruct (List.find _ _) as [[e' box]|] eqn:Hfind; [|done].
  injection Hhit as ->. apply List.find_some in Hfind as [_ Hp].
  apply andb_true_iff in Hp as [_ Hp]. apply negb_true_iff in Hp.
  by apply bool_decide_eq_false in Hp.
Qed.

Example demo_dragging_session :
  session (Demo.dragging (Demo.withPayload "B3")) =
  {| isDragging := true; draggedElement := Some 1%nat;
     currentDropTarget := None; dragData := {[ "text/plain" := "B3" ]} |}.
Proof. reflexivity. Qed.

Lemma demo_dragging_reachable h : reachable Demo.hitTest h (Demo.dragging h).
Proof. apply reach_event, reach_init. reflexivity. Defined.

Lemma demo_mouseDragging_reachable h :
  reachable Demo.hitTest h (Demo.mouseDragging h).
Proof. apply reach_event, reach_init. reflexivity. Defined.

(** *** C1 *)

(** A drag started with the mouse whose start handler stores a payload:
    after the native drop the session is still active; after the native
    drag-end that follows, the session is idle but the payload is still
    there. *)
Lemma session_not_reset_counterexample :
  isDragging (session (run Demo.hitTest (Demo.withPayload "B3")
     [Demo.mouse E_dragstart 1%nat 5 5; Demo.mouse E_drop 2%nat 50 50]
     Demo.start)) = true
  ∧ isDragging (session (run Demo.hitTest (Demo.withPayload "B3")
     [Demo.mouse E_dragstart 1%nat 5 5; Demo.mouse E_drop 2%nat 50 50;
      Demo.mouse E_dragend 1%nat 50 50]
     Demo.start)) = false
  ∧ dragData (session (run Demo.hitTest (Demo.withPayload "B3")
     [Demo.mouse E_dragstart 1%nat 5 5; Demo.mouse E_drop 2%nat 50 50;
      Demo.mouse E_dragend 1%nat 50 50]
     Demo.start)) !! "text/plain" = Some "B3".
Proof. repeat split; reflexivity. Qed.

Lemma session_after_end_events_witness :
  session (deliver Demo.hitTest Demo.allQuiet (Demo.touch E_touchend 1%nat 50 50)
             (Demo.dragging Demo.allQuiet)).2 = emptySession
  ∧ (isDragging (session (deliver Demo.hitTest Demo.allQuiet
                            (Demo.mouse E_dragend 1%nat 50 50)
                            (Demo.mouseDragging Demo.allQuiet)).2) = false
     ∧ draggedElement (session (deliver Demo.hitTest Demo.allQuiet
                            (Demo.mouse E_dragend 1%nat 50 50)
                            (Demo.mouseDragging Demo.allQuiet)).2) = None
     ∧ currentDropTarget (session (deliver Demo.hitTest Demo.allQuiet
                            (Demo.mouse E_dragend 1%nat 50 50)
                            (Demo.mouseDragging Demo.allQuiet)).2) = None)
  ∧ session (deliver Demo.hitTest Demo.allQuiet (Demo.mouse E_drop 2%nat 50 50)
               (Demo.mouseDragging Demo.allQuiet)).2
    = session (Demo.mouseDragging Demo.allQuiet).
Proof.
  split; [|split].
  - apply (session_after_end_events Demo.hitTest Demo.allQuiet
             (Demo.touch E_touchend 1%nat 50 50) (Demo.dragging Demo.allQuiet)
             (demo_dragging_reachable Demo.allQuiet));
      [left; reflexivity | reflexivity | reflexivity].
  - apply (session_after_end_events Demo.hitTest Demo.allQuiet
             (Demo.mouse E_dragend 1%nat 50 50)
             (Demo.mouseDragging Demo.allQuiet)
             (demo_mouseDragging_reachable Demo.allQuiet)); reflexivity.
  - apply (session_after_end_events Demo.hitTest Demo.allQuiet
             (Demo.mouse E_drop 2%nat 50 50)
             (Demo.mouseDragging Demo.allQuiet)
             (demo_mouseDragging_reachable Demo.allQuiet)); reflexivity.
Defined.

(** *** C2 *)

(** The drop handler throws on touch end: the listener ends with the
    exception and the session is still the active one. *)
Lemma touchEnd_throw_counterexample :
  (touchEndHandler Demo.hitTest Demo.dropThrows
     (Demo.touch E_touchend 1%nat 50 50) (Demo.dragging Demo.dropThrows)).1
  = Throw
  ∧ session (touchEndHandler Demo.hitTest Demo.dropThrows
               (Demo.touch E_touchend 1%nat 50 50)
               (Demo.dragging Demo.dropThrows)).2
    = {| isDragging := true; draggedElement := Some 1%nat;
         currentDropTarget := None; dragData := ∅ |}.
Proof. split; reflexivity. Qed.

Lemma touchEnd_clears_unless_thrown_witness :
  session (touchEndHandler Demo.hitTest Demo.allQuiet
             (Demo.touch E_touchend 1%nat 50 50)
             (Demo.dragging Demo.allQuiet)).2 = emptySession
  ∧ session (touchEndHandler Demo.hitTest Demo.dropThrows
               (Demo.touch E_touchcancel 1%nat 50 50)
               (Demo.dragging Demo.dropThrows)).2
    = session (Demo.dragging Demo.dropThrows).
Proof.
  split.
  - exact (touchEnd_clears_unless_thrown Demo.hitTest Demo.allQuiet
             (Demo.touch E_touchend 1%nat 50 50)
             (Demo.dragging Demo.allQuiet) eq_refl).
  - apply (touchEnd_clears_unless_thrown Demo.hitTest Demo.dropThrows
             (Demo.touch E_touchcancel 1%nat 50 50)
             (Demo.dragging Demo.dropThrows) eq_refl).
Defined.

(** *** C3 *)

Lemma touchmove_dragOver_at_most_once_witness :
  (count_calls HDragOver
     (drop (length (trace (Demo.dragging Demo.allQuiet)))
           (trace (run Demo.hitTest Demo.allQuiet Demo.movesOverZone
                       (Demo.dragging Demo.allQuiet)))) ≤ 1)%nat.
Proof.
  apply (touchmove_dragOver_at_most_once Demo.hitTest Demo.allQuiet
           (Some 2%nat) Demo.movesOverZone (Demo.dragging Demo.allQuiet)).
  repeat split; reflexivity.
Defined.

Example three_moves_one_dragOver :
  drop (length (trace (Demo.dragging Demo.allQuiet)))
       (trace (run Demo.hitTest Demo.allQuiet Demo.movesOverZone
                   (Demo.dragging Demo.allQuiet)))
  = [APreventDefault; ACall HDragOver (Synthetic Demo.zoneOver);
     APreventDefault; APreventDefault].
Proof. reflexivity. Qed.

(** *** C4 *)

Lemma dragged_element_never_drop_target_witness :
  is_Some (se_target Demo.zoneOver)
  ∧ se_target Demo.zoneOver
    ≠ draggedElement (session (Demo.dragging Demo.allQuiet)).
Proof.
  destruct (dragged_element_never_drop_target Demo.hitTest hitTest_visible
              Demo.allQuiet (Demo.touch E_touchmove 1%nat 50 50)
              (Demo.dragging Demo.allQuiet)) as (_ & Hmove & _).
  destruct (Hmove eq_refl) as [Hover _]. apply Hover.
  apply list_elem_of_further, list_elem_of_here.
Defined.

(** The tile lies on top of the zone: without the exclusion the point
    resolves to the tile itself, with it to the zone below. *)
Example exclusion_matters :
  (getElementFromPoint Demo.hitTest 5 5 None Demo.start).1 = Normal (Some 1%nat)
  ∧ (getElementFromPoint Demo.hitTest 5 5 (Some 1%nat) Demo.start).1
    = Normal (Some 2%nat).
Proof. split; reflexivity. Qed.

(** *** C6 *)



(** *** C8 *)

(** The start handler stored the empty string under ["text/plain"]; the
    drop event's [getData("text/plain")] gives the tile identifier, not
    the stored value.  It stored nothing under ["toString"]; the drop
    event's [getData("toString")] gives the inherited member, not the
    tile identifier. *)
Lemma drop_getData_counterexample :
  dragData (session (Demo.dragging (Demo.withPayload ""))) !! "text/plain"
  = Some ""
  ∧ dropGetData "text/plain"
      (emitted (touchEndHandler Demo.hitTest (Demo.withPayload "")
                  (Demo.touch E_touchend 1%nat 50 50))
               (Demo.dragging (Demo.withPayload "")))
    = [JStr "0-3"]
  ∧ dragData (session (Demo.dragging (Demo.withPayload ""))) !! "toString"
    = None
  ∧ dropGetData "toString"
      (emitted (touchEndHandler Demo.hitTest (Demo.withPayload "")
                  (Demo.touch E_touchend 1%nat 50 50))
               (Demo.dragging (Demo.withPayload "")))
    = [JInherited "toString"].
Proof. repeat split; reflexivity. Qed.

Lemma drop_getData_fallback_witness :
  ∃ se getData rest,
    emitted (touchEndHandler Demo.hitTest (Demo.withPayload "B3")
               (Demo.touch E_touchend 1%nat 50 50))
            (Demo.dragging (Demo.withPayload "B3"))
      = APreventDefault :: ACall HDrop (Synthetic se) :: rest
    ∧ se_target se = Some 2%nat
    ∧ se_getData se = Some getData
    ∧ ∀ key,
        getData key =
        match dragData (session (Demo.dragging (Demo.withPayload "B3"))) !! key with
        | Some v =>
          if bool_decide (v = "")
          then js_get (dataset (document (Demo.dragging (Demo.withPayload "B3"))
                                         1%nat)) "tileId"
          else JStr v
        | None =>
          if bool_decide (key ∈ Object_prototype)
          then JInherited key
          else js_get (dataset (document (Demo.dragging (Demo.withPayload "B3"))
                                         1%nat)) "tileId"
        end.
Proof.
  exact (drop_getData_fallback Demo.hitTest (Demo.withPayload "B3")
           (Demo.touch E_touchend 1%nat 50 50)
           (Demo.dragging (Demo.withPayload "B3")) (Demo.quiet 13)
           1%nat 2%nat eq_refl eq_refl eq_refl eq_refl).
Defined.

Example drop_getData_stored_and_fallback :
  dropGetData "text/plain"
    (emitted (touchEndHandler Demo.hitTest (Demo.withPayload "B3")
                (Demo.touch E_touchend 1%nat 50 50))
             (Demo.dragging (Demo.withPayload "B3")))
  = [JStr "B3"]
  ∧ dropGetData "text/plain"
      (emitted (touchEndHandler Demo.hitTest Demo.allQuiet
                  (Demo.touch E_touchend 1%nat 50 50))
               (Demo.dragging Demo.allQuiet))
    = [JStr "0-3"].
Proof. split; reflexivity. Qed.

(** *** C5 *)

Lemma demo_not_within_interactive (t : ElemId) :
  tagName (Demo.page t) = "DIV" → ancestors (Demo.page t) = [0%nat] →
  ¬ within_interactive Demo.page t.
Proof.
  intros Htag Hanc [Hi | (a & Hin & Hi)].
  - unfold interactive in Hi. rewrite Htag in Hi. intuition discriminate.
  - rewrite Hanc in Hin. apply list_elem_of_singleton in Hin as ->.
    unfold interactive in Hi. simpl in Hi. intuition discriminate.
Qed.

(** Element 5 carries only a tile-identifier attribute, whose value is the
    empty string: it fails the start test and a native drag-start on it
    changes nothing.  Element 4 carries only the tile identifier ["0-4"]:
    it passes the start test, yet a touch on it starts nothing, because it
    is not inside a tile-class or drag-enabled element. *)
Lemma tile_id_only_counterexample :
  (is_Some (dataset (Demo.page 5%nat) !! "tileId")
   ∧ draggable (Demo.page 5%nat) = false
   ∧ classList (Demo.page 5%nat) = []
   ∧ ¬ within_interactive Demo.page 5%nat
   ∧ eligible Demo.page (Some 5%nat) = false
   ∧ deliver Demo.hitTest Demo.allQuiet (Demo.mouse E_dragstart 5%nat 405 5)
             Demo.start = (Normal tt, Demo.start))
  ∧ (dataset (Demo.page 4%nat) !! "tileId" = Some "0-4"
     ∧ ¬ within_interactive Demo.page 4%nat
     ∧ eligible Demo.page (Some 4%nat) = true
     ∧ deliver Demo.hitTest Demo.allQuiet (Demo.touch E_touchstart 4%nat 305 5)
               Demo.start = (Normal tt, Demo.start)).
Proof.
  split.
  - split; [by eexists|]. repeat (split; [reflexivity|]).
    split; [by apply demo_not_within_interactive|]. split; reflexivity.
  - split; [reflexivity|].
    split; [by apply demo_not_within_interactive|]. split; reflexivity.
Qed.

Lemma start_eligibility_witness :
  eligible Demo.page (Some 4%nat) = true
  ∧ eligible Demo.page (Some 3%nat) = false
  ∧ eligible Demo.page (Some 6%nat) = false
  ∧ unifiedDragStart Demo.hitTest Demo.allQuiet
      (Demo.mouse E_dragstart 3%nat 205 5) Demo.start = (Normal tt, Demo.start)
  ∧ (isDragging (session (unifiedDragStart Demo.hitTest Demo.allQuiet
                            (Demo.mouse E_dragstart 4%nat 305 5) Demo.start).2)
     = true
     ∧ draggedElement (session (unifiedDragStart Demo.hitTest Demo.allQuiet
                            (Demo.mouse E_dragstart 4%nat 305 5) Demo.start).2)
       = Some 4%nat)
  ∧ touchStartHandler Demo.hitTest Demo.allQuiet
      (Demo.touch E_touchstart 4%nat 305 5) Demo.start = (Normal tt, Demo.start).
Proof.
  split; [|split; [|split; [|split; [|split]]]].
  - destruct (start_eligibility Demo.hitTest Demo.allQuiet
                (Demo.mouse E_dragstart 4%nat 305 5) Demo.start Demo.page 4%nat)
      as (Htile & _).
    apply (Htile "0-4"); [reflexivity|discriminate|].
    by apply demo_not_within_interactive.
  - apply (start_eligibility Demo.hitTest Demo.allQuiet
             (Demo.mouse E_dragstart 3%nat 205 5) Demo.start Demo.page 3%nat).
    left. left. reflexivity.
  - apply (start_eligibility Demo.hitTest Demo.allQuiet
             (Demo.mouse E_dragstart 6%nat 505 5) Demo.start Demo.page 6%nat).
    right. exists 7%nat. split; [apply list_elem_of_here|].
    right. left. reflexivity.
  - apply (start_eligibility Demo.hitTest Demo.allQuiet
             (Demo.mouse E_dragstart 3%nat 205 5) Demo.start Demo.page 3%nat).
    reflexivity.
  - destruct (start_eligibility Demo.hitTest Demo.allQuiet
                (Demo.mouse E_dragstart 4%nat 305 5) Demo.start Demo.page 4%nat)
      as (_ & _ & _ & Hstart & _).
    destruct (Hstart (or_introl eq_refl) eq_refl) as (Hon & Hd & _).
    split; [exact Hon|exact Hd].
  - apply (start_eligibility Demo.hitTest Demo.allQuiet
             (Demo.touch E_touchstart 4%nat 305 5) Demo.start Demo.page 4%nat).
    reflexivity.
Defined.

(** *** C7 *)

(** Two setups in a row on a fresh page: nine listeners after the first,
    seventeen after the second. *)
Lemma second_setup_counterexample :
  length (listeners (setupDragAndDrop Demo.allQuiet
                       (@freshPage unit))) = 9%nat
  ∧ length (listeners (setupDragAndDrop Demo.allQuiet
                         (setupDragAndDrop Demo.allQuiet (@freshPage unit))))
    = 17%nat
  ∧ listeners (setupDragAndDrop Demo.allQuiet
                 (setupDragAndDrop Demo.allQuiet (@freshPage unit)))
    ≠ listeners (setupDragAndDrop Demo.allQuiet (@freshPage unit)).
Proof. repeat split; [reflexivity..|discriminate]. Qed.

Lemma demo_busyPage_known : closures_known Demo.busyPage.
Proof.
  intros t n c Hin. apply list_elem_of_singleton in Hin. discriminate Hin.
Defined.

Lemma second_setup_registers_again_witness :
  mkListener E_touchend (Closure 1 C_touchEndHandler)
    ∈ listeners (setupDragAndDrop Demo.allQuiet
                   (setupDragAndDrop Demo.allQuiet Demo.busyPage))
  ∧ mkListener E_touchend (Closure 1 C_touchEndHandler)
    ∉ listeners (setupDragAndDrop Demo.allQuiet Demo.busyPage).
Proof.
  apply (second_setup_registers_again Demo.allQuiet Demo.allQuiet Demo.busyPage
           demo_busyPage_known).
  do 6 apply list_elem_of_further. apply list_elem_of_here.
Defined.

Example teardown_after_two_setups :
  listeners (removeDragAndDrop
               (setupDragAndDrop Demo.allQuiet
                  (setupDragAndDrop Demo.allQuiet (@freshPage unit))))
  = closure_listeners 0.
Proof. reflexivity. Qed.

(** *** C9 *)

Lemma teardown_safe_and_idempotent_witness :
  removeDragAndDrop Demo.busyPage = Demo.busyPage
  ∧ mkListener E_touchend (Closure 0 C_touchEndHandler)
    ∉ listeners (removeDragAndDrop
                   (setupDragAndDrop Demo.allQuiet Demo.busyPage)).
Proof.
  destruct (teardown_safe_and_idempotent Demo.allQuiet Demo.busyPage)
    as (Hnone & _ & _ & Hgone & _).
  split.
  - apply Hnone. reflexivity.
  - apply Hgone. apply elem_of_app. left.
    do 6 apply list_elem_of_further. apply list_elem_of_here.
Defined.

Example setup_then_teardown_on_busy_page :
  listeners (removeDragAndDrop (setupDragAndDrop Demo.allQuiet Demo.busyPage))
  = listeners Demo.busyPage.
Proof. reflexivity. Qed.


(** *** C10 *)

(** The tile has no [style] attribute; once it has been excluded from a
    hit test it has one, though its [display] reads as before.  On the
    page that styles it [display: block !important], the declaration has
    lost its priority after the hit test. *)
Lemma display_restore_counterexample :
  (style_display
     (document (getElementFromPoint Demo.hitTest 50 50 (Some 1%nat)
                                    Demo.start).2 1%nat)
   = style_display (document Demo.start 1%nat)
   ∧ style_attribute (document Demo.start 1%nat) = StyleAbsent
   ∧ style_attribute
       (document (getElementFromPoint Demo.hitTest 50 50 (Some 1%nat)
                                      Demo.start).2 1%nat)
     = StyleSerialized)
  ∧ (style_display
       (document (getElementFromPoint Demo.hitTest 50 50 (Some 1%nat)
                                      Demo.pinned).2 1%nat)
     = style_display (document Demo.pinned 1%nat)
     ∧ display_important (document Demo.pinned 1%nat) = true
     ∧ display_important
         (document (getElementFromPoint Demo.hitTest 50 50 (Some 1%nat)
                                        Demo.pinned).2 1%nat)
       = false).
Proof. repeat split; reflexivity. Qed.

Lemma getElementFromPoint_restores_display_witness :
  style_display
    (document (getElementFromPoint Demo.hitTest 50 50 (Some 1%nat)
                                   Demo.pinned).2 1%nat)
  = "block"
  ∧ document (getElementFromPoint Demo.hitTest 50 50 (Some 1%nat)
                                  Demo.pinned).2 2%nat
    = document Demo.pinned 2%nat.
Proof.
  destruct (getElementFromPoint_restores_display
              Demo.hitTest 50 50 1%nat Demo.pinned)
    as (_ & Hdisplay & _ & _ & Hothers & _).
  split; [exact Hdisplay|]. apply Hothers. discriminate.
Defined.
(** * Properties of the element helpers *)

(** ** Strings *)

Lemma append_cons a (s t : string) : String a s +:+ t = String a (s +:+ t).
Proof. reflexivity. Qed.

Lemma append_length (s t : string) :
  String.length (s +:+ t) = (String.length s + String.length t)%nat.
Proof.
  induction s as [|a s IH]; [done|]. rewrite append_cons. simpl. by rewrite IH.
Qed.

Lemma append_inj_l (s s' t : string) : s +:+ t = s' +:+ t → s = s'.
Proof.
  revert s'. induction s as [|a s IH]; intros [|a' s'] Heq.
  - done.
  - apply (f_equal String.length) in Heq.
    rewrite !append_length in Heq. simpl in Heq. lia.
  - apply (f_equal String.length) in Heq.
    rewrite !append_length in Heq. simpl in Heq. lia.
  - rewrite !append_cons in Heq. injection Heq as -> Heq. f_equal. by apply IH.
Qed.

Lemma px_inj (n m : Z) : px n = px m → n = m.
Proof. unfold px. intros Heq%append_inj_l. by apply (inj pretty). Qed.

Lemma trimEnd_nonspace a s :
  Ascii.is_space a = false → trimEnd (String a s) = String a (trimEnd s).
Proof. intros Ha. simpl. rewrite Ha. by destruct (trimEnd s). Qed.

Lemma tokens_go_nonspace cur a s :
  ascii_whitespace a = false →
  tokens_go cur (String a s)
  = tokens_go (Some (from_option (String a) (String a EmptyString) cur)) s.
Proof. intros Ha. simpl. by rewrite Ha. Qed.

Lemma elem_of_add_token c x (l : list string) :
  c ∈ add_token x l ↔ c ∈ l ∨ c = x.
Proof.
  unfold add_token. case_bool_decide.
  - split; [by left|]. by intros [?| ->].
  - by rewrite elem_of_app, list_elem_of_singleton.
Qed.

Lemma elem_of_add_tokens c (l : list string) :
  ∀ tokens, c ∈ foldl (fun tokens c => add_token c tokens) tokens l
            ↔ c ∈ tokens ∨ c ∈ l.
Proof.
  induction l as [|x l IH]; intros tokens; simpl.
  - rewrite elem_of_nil. tauto.
  - rewrite IH, elem_of_add_token, elem_of_cons. tauto.
Qed.

(** Whatever is appended after ["mahjong-tile "], the first class token of
    the trimmed string is ["mahjong-tile"]. *)
Lemma classTokens_tile (additionalClasses : string) :
  "mahjong-tile" ∈ classTokens (trim ("mahjong-tile " +:+ additionalClasses)).
Proof.
  unfold classTokens, trim. apply elem_of_add_tokens. right.
  change (trimStart ("mahjong-tile " +:+ additionalClasses))
    with ("mahjong-tile" +:+ (" " +:+ additionalClasses)).
  assert (Hend : ∃ r, trimEnd ("mahjong-tile" +:+ (" " +:+ additionalClasses))
                      = "mahjong-tile" +:+ r
                      ∧ (r = EmptyString ∨ ∃ r', r = " " +:+ r')).
  { exists (trimEnd (" " +:+ additionalClasses)). split.
    - rewrite !append_cons. by rewrite 12!trimEnd_nonspace by done.
    - rewrite append_cons. change ("" +:+ additionalClasses) with additionalClasses.
      simpl. destruct (trimEnd additionalClasses); [by left|right].
      by eexists. }
  destruct Hend as (r & -> & [-> | [r' ->]]).
  - vm_compute. apply list_elem_of_here.
  - rewrite !append_cons. rewrite 12!tokens_go_nonspace by done.
    simpl. apply list_elem_of_here.
Qed.

(** ** Inline styles *)

Lemma set_style_lookup key value el k :
  el_style (set_style key value el) !! k
  = if bool_decide (k = key) then Some value else el_style el !! k.
Proof.
  unfold set_style. case_bool_decide as Hset; case_bool_decide as Hk; simpl;
    by simplify_map_eq.
Qed.

(** Writing a style property leaves everything else of the element, the
    text of its [style] attribute apart. *)
Lemma set_style_frame key value el :
  el_id (set_style key value el) = el_id el
  ∧ el_text (set_style key value el) = el_text el
  ∧ el_children (set_style key value el) = el_children el
  ∧ same_but_style_text (el_node el) (el_node (set_style key value el))
  ∧ display_important (el_node (set_style key value el))
    = display_important (el_node el).
Proof. unfold set_style. by case_bool_decide. Qed.

Lemma with_classList_style f el :
  el_style (with_classList f el) = el_style el.
Proof. reflexivity. Qed.

(** ** [positionTileInWall] *)

Lemma position_positionTileInWall tile wallIndex tileIndex tilesPerStack :
  position (positionTileInWall tile wallIndex tileIndex tilesPerStack)
  = if bool_decide (wallIndex = 1) || bool_decide (wallIndex = 3)
    then (Some (px (10 + tileIndex `div` Z.pos tilesPerStack * 30)),
          Some (px (if bool_decide (tileIndex `rem` Z.pos tilesPerStack = 1)
                    then 15 else 35)))
    else (Some (px (if bool_decide (tileIndex `rem` Z.pos tilesPerStack = 1)
                    then 25 else 45)),
          Some (px (20 + tileIndex `div` Z.pos tilesPerStack * 25))).
Proof.
  unfold positionTileInWall, position.
  destruct (bool_decide (tileIndex `rem` Z.pos tilesPerStack = 1));
    destruct (bool_decide (wallIndex = 0) || bool_decide (wallIndex = 2));
    destruct (bool_decide (wallIndex = 1) || bool_decide (wallIndex = 3));
    rewrite ?with_classList_style, !set_style_lookup; done.
Qed.

Lemma index_from_stack (i j : Z) :
  0 ≤ i → 0 ≤ j → i `div` 2 = j `div` 2 →
  (i `rem` 2 = 1 ↔ j `rem` 2 = 1) → i = j.
Proof.
  intros Hi Hj Hdiv Hrem. rewrite !Z.rem_mod_nonneg in Hrem by lia.
  pose proof (Z.div_mod i 2). pose proof (Z.div_mod j 2).
  pose proof (Z.mod_pos_bound i 2). pose proof (Z.mod_pos_bound j 2). lia.
Qed.

Lemma position_eq_index tile tile' wallIndex i j :
  0 ≤ i → 0 ≤ j →
  position (positionTileInWall tile wallIndex i 2)
  = position (positionTileInWall tile' wallIndex j 2) →
  i = j.
Proof.
  intros Hi Hj. rewrite !position_positionTileInWall. intros Heq.
  apply index_from_stack; try done.
  - destruct (bool_decide (wallIndex = 1) || bool_decide (wallIndex = 3));
      injection Heq as Hl Ht.
    + apply px_inj in Hl. lia.
    + apply px_inj in Ht. lia.
  - destruct (bool_decide (wallIndex = 1) || bool_decide (wallIndex = 3));
      injection Heq as Hl Ht;
      [apply px_inj in Ht|apply px_inj in Hl];
      do 2 case_bool_decide; split; intros; (done || lia).
Qed.

(** X1.  With the default of two tiles per stack, two tiles of a wall with
    different indices, both in the range in which the code computes
    exactly, are never put at the same place: their [(left, top)] pairs
    differ, whatever the wall index, and both coordinates are always
    set. *)
Theorem positionTileInWall_places_distinct tile tile' wallIndex i j :
  exact_index i → exact_index j → i ≠ j →
  position (positionTileInWall tile wallIndex i 2)
  ≠ position (positionTileInWall tile' wallIndex j 2)
  ∧ is_Some (position (positionTileInWall tile wallIndex i 2)).1
  ∧ is_Some (position (positionTileInWall tile wallIndex i 2)).2.
Proof.
  intros [Hi _] [Hj _] Hne. split.
  - intros Heq. by apply Hne, (position_eq_index tile tile' wallIndex).
  - rewrite position_positionTileInWall.
    destruct (bool_decide (wallIndex = 1) || bool_decide (wallIndex = 3));
      simpl; split; by eexists.
Qed.

Lemma positionTileInWall_places_distinct_witness :
  position (positionTileInWall (createTile "1-2" (Some 1) true "") 1 2 2)
  ≠ position (positionTileInWall (createTile "1-3" (Some 1) true "") 1 3 2).
Proof.
  apply (positionTileInWall_places_distinct _ _ 1 2 3);
    unfold exact_index; lia.
Defined.

(** X2.  The layout knows one raised tile per stack only: with three or
    more tiles per stack, the tiles at offsets 0 and 2 of a stack come out
    identical, at the same place, for every stack whose indices are in the
    range in which the code computes exactly. *)
Theorem positionTileInWall_stack_collision tile wallIndex stack tilesPerStack :
  3 ≤ Z.pos tilesPerStack → 0 ≤ stack →
  exact_index (stack * Z.pos tilesPerStack + 2) →
  positionTileInWall tile wallIndex (stack * Z.pos tilesPerStack) tilesPerStack
  = positionTileInWall tile wallIndex (stack * Z.pos tilesPerStack + 2)
                       tilesPerStack.
Proof.
  intros Hk Hs _. unfold positionTileInWall.
  set (k := Z.pos tilesPerStack) in *.
  assert (Hd0 : (stack * k) `div` k = stack) by (apply Z.div_mul; lia).
  assert (Hd2 : (stack * k + 2) `div` k = stack).
  { symmetry. apply (Z.div_unique _ _ stack 2); lia. }
  assert (Hr0 : (stack * k) `rem` k = 0).
  { rewrite Z.rem_mod_nonneg by nia. apply Z.mod_mul. lia. }
  assert (Hr2 : (stack * k + 2) `rem` k = 2).
  { rewrite Z.rem_mod_nonneg by nia.
    symmetry. apply (Z.mod_unique _ _ stack 2); lia. }
  rewrite Hd0, Hd2, Hr0, Hr2. done.
Qed.

Lemma positionTileInWall_stack_collision_witness :
  positionTileInWall (createTile "0-3" (Some 0) true "") 0 (1 * 3) 3
  = positionTileInWall (createTile "0-3" (Some 0) true "") 0 (1 * 3 + 2) 3.
Proof.
  apply (positionTileInWall_stack_collision _ 0 1 3);
    unfold exact_index; lia.
Defined.

Lemma set_style_node key value el :
  tagName (el_node (set_style key value el)) = tagName (el_node el)
  ∧ draggable (el_node (set_style key value el)) = draggable (el_node el)
  ∧ classList (el_node (set_style key value el)) = classList (el_node el)
  ∧ dataset (el_node (set_style key value el)) = dataset (el_node el).
Proof. by destruct (set_style_frame key value el) as (_ & _ & _ & (? & ? & ? & ? & _) & _). Qed.

(** What placing leaves of the marks of a tile. *)
Lemma positionTileInWall_marks tile wallIndex tileIndex tilesPerStack :
  dataset (el_node (positionTileInWall tile wallIndex tileIndex tilesPerStack))
  = dataset (el_node tile)
  ∧ (∀ c, c ∈ classList (el_node (positionTileInWall tile wallIndex tileIndex
                                                      tilesPerStack)) ↔
          c ∈ classList (el_node tile)
          ∨ (c = "stacked" ∧ tileIndex `rem` Z.pos tilesPerStack = 1)).
Proof.
  unfold positionTileInWall.
  case_bool_decide as Htop;
    destruct (bool_decide (wallIndex = 0) || bool_decide (wallIndex = 2));
    destruct (bool_decide (wallIndex = 1) || bool_decide (wallIndex = 3));
    cbn [with_classList with_node el_node dataset classList];
    repeat match goal with
           | |- context [el_node (set_style ?k ?v ?el)] =>
             destruct (set_style_node k v el) as (_ & _ & -> & ->)
           end;
    (split; [done|]);
    intros c; rewrite ?elem_of_add_token; naive_solver.
Qed.



(** ** The page as a tree *)

Lemma Element_tree_ind (P : Element → Prop) :
  (∀ el, Forall P (el_children el) → P el) → ∀ el, P el.
Proof.
  intros step. fix IH 1. intros [id n s t children]. apply step. simpl.
  revert children. fix IHchildren 1. intros [|child children]; constructor.
  - apply IH.
  - apply IHchildren.
Qed.

Lemma getElementById_unfold id page :
  getElementById id page
  = if has_id id page then Some []
    else first_child (getElementById id) 0%nat (el_children page).
Proof. by destruct page. Qed.

Lemma ids_unfold el :
  ids el
  = match el_id el with
    | Some id => if bool_decide (id = "") then [] else [id]
    | None => []
    end ++ concat (map ids (el_children el)).
Proof. by destruct el. Qed.

Lemma stats_applied_unfold entries el :
  stats_applied entries el
  = match stat_of entries el with
    | Some value => set_textContent value el
    | None => with_children (map (stats_applied entries)) el
    end.
Proof. by destruct el. Qed.

Lemma first_child_None find i (l : list Element) :
  first_child find i l = None ↔ Forall (fun c => find c = None) l.
Proof.
  revert i. induction l as [|c l IH]; intros i; simpl.
  - split; [constructor|done].
  - rewrite Forall_cons. destruct (find c) as [r|] eqn:Hc.
    + split; [done|]. by intros [? _].
    + rewrite IH. tauto.
Qed.

Lemma first_child_Some find i (l : list Element) r :
  first_child find i l = Some r
  ↔ ∃ j c r', r = (i + j)%nat :: r' ∧ l !! j = Some c ∧ find c = Some r'
              ∧ ∀ j' c', (j' < j)%nat → l !! j' = Some c' → find c' = None.
Proof.
  revert i. induction l as [|c l IH]; intros i; simpl.
  - split; [done|]. by intros (j & c & r' & _ & Hj & _).
  - destruct (find c) as [rc|] eqn:Hc.
    + split.
      * intros [= <-]. exists 0%nat, c, rc.
        rewrite Nat.add_0_r. repeat split; try done. lia.
      * intros (j & c' & r' & -> & Hj & Hfound & Hbefore).
        destruct j as [|j].
        -- simpl in Hj. injection Hj as <-. rewrite Nat.add_0_r.
           rewrite Hc in Hfound. by injection Hfound as ->.
        -- specialize (Hbefore 0%nat c). simpl in Hbefore.
           rewrite Hbefore in Hc by (done || lia). done.
    + rewrite IH. split.
      * intros (j & c' & r' & -> & Hj & Hfound & Hbefore).
        exists (S j), c', r'. split; [f_equal; lia|]. split; [done|].
        split; [done|]. intros [|j'] c'' Hlt Hj'; simpl in Hj'.
        -- by injection Hj' as <-.
        -- apply (Hbefore j'); [lia|done].
      * intros (j & c' & r' & -> & Hj & Hfound & Hbefore).
        destruct j as [|j].
        { simpl in Hj. injection Hj as <-. by rewrite Hc in Hfound. }
        exists j, c', r'. split; [f_equal; lia|]. split; [done|].
        split; [done|]. intros j' c'' Hlt Hj'.
        apply (Hbefore (S j')); [lia|done].
Qed.

Lemma elem_of_concat_map {A} (f : A → list string) (l : list A) x :
  x ∈ concat (map f l) ↔ ∃ a, a ∈ l ∧ x ∈ f a.
Proof.
  induction l as [|a l IH]; simpl.
  - rewrite elem_of_nil. split; [done|]. by intros (a & ?%elem_of_nil & _).
  - rewrite elem_of_app, IH. split.
    + intros [Hx|(b & Hb & Hx)].
      * exists a. split; [apply list_elem_of_here|done].
      * exists b. split; [by apply list_elem_of_further|done].
    + intros (b & [->|Hb]%elem_of_cons & Hx); [by left|].
      right. by exists b.
Qed.

Lemma elem_of_ids id el :
  id ∈ ids el
  ↔ has_id id el = true ∨ ∃ c, c ∈ el_children el ∧ id ∈ ids c.
Proof.
  rewrite ids_unfold, elem_of_app, elem_of_concat_map.
  assert (id ∈ match el_id el with
               | Some id => if bool_decide (id = "") then [] else [id]
               | None => []
               end ↔ has_id id el = true) as ->; [|done].
  unfold has_id. destruct (el_id el) as [i|].
  - destruct (decide (i = "")) as [->|Hi].
    + rewrite bool_decide_eq_true_2 by done. rewrite elem_of_nil.
      split; [done|]. intros [Heq Hne]%andb_true_iff.
      apply bool_decide_eq_true_1 in Heq. injection Heq as <-. done.
    + rewrite (bool_decide_eq_false_2 (i = "")) by done.
      rewrite list_elem_of_singleton. split.
      * intros ->. rewrite bool_decide_eq_true_2 by done.
        by rewrite (bool_decide_eq_false_2 (i = "")) by done.
      * intros [Heq _]%andb_true_iff.
        apply bool_decide_eq_true_1 in Heq. by injection Heq as <-.
  - rewrite elem_of_nil. split; [done|]. intros [Heq _]%andb_true_iff.
    by apply bool_decide_eq_true_1 in Heq.
Qed.

(** [getElementById] finds nothing exactly when no element of the page
    has the ID. *)
Lemma getElementById_None id page :
  getElementById id page = None ↔ id ∉ ids page.
Proof.
  induction page as [page IH] using Element_tree_ind.
  rewrite getElementById_unfold, elem_of_ids.
  destruct (has_id id page); [split; [done|]; intros Hnot; destruct Hnot; by left|].
  rewrite first_child_None. rewrite Forall_forall in IH. split.
  - intros Hnone [?|(c & Hc & Hid)]; [done|].
    rewrite Forall_forall in Hnone.
    exact (proj1 (IH c Hc) (Hnone c Hc) Hid).
  - intros Hnot. apply Forall_forall. intros c Hc. apply (IH c Hc).
    intros Hid. apply Hnot. right. by exists c.
Qed.

(** What it finds is an element of the page that has the ID. *)
Lemma getElementById_Some id page r :
  getElementById id page = Some r →
  ∃ el, deref r page = Some el ∧ has_id id el = true.
Proof.
  revert r. induction page as [page IH] using Element_tree_ind. intros r.
  rewrite getElementById_unfold. destruct (has_id id page) eqn:Hid.
  - intros [= <-]. by exists page.
  - intros (j & c & r' & -> & Hj & Hfound & _)%first_child_Some.
    rewrite Forall_forall in IH.
    destruct (IH c (list_elem_of_lookup_2 _ _ _ Hj) r' Hfound) as (el & Hel & Hhas).
    exists el. split; [|done]. simpl. by rewrite Hj.
Qed.

Lemma deref_ids id r page el :
  deref r page = Some el → has_id id el = true → id ∈ ids page.
Proof.
  revert page. induction r as [|i r IH]; intros page; simpl.
  - intros [= <-] Hid. apply elem_of_ids. by left.
  - destruct (el_children page !! i) as [c|] eqn:Hc; [|done].
    intros Hel Hid. apply elem_of_ids. right. exists c.
    split; [by eapply list_elem_of_lookup_2|by apply IH].
Qed.

Lemma deref_app p r page :
  deref (p ++ r) page = deref p page ≫= deref r.
Proof.
  revert page. induction p as [|i p IH]; intros page; simpl; [done|].
  destruct (el_children page !! i); [apply IH|done].
Qed.

Lemma deref_write_same p f page el :
  deref p page = Some el → deref p (write p f page) = Some (f el).
Proof.
  revert page. induction p as [|i p IH]; intros page; simpl.
  - by intros [= <-].
  - destruct (el_children page !! i) as [c|] eqn:Hc; [|done]. intros Hel.
    rewrite list_lookup_alter_eq, Hc. simpl. by apply IH.
Qed.

(** A write changes nothing of the elements that are not inside the
    element written to, their children apart; and nothing at all of those
    that are not above it either. *)
Lemma own_deref_write p q f page :
  ¬ p `prefix_of` q →
  own <$> deref q (write p f page) = own <$> deref q page.
Proof.
  revert q page. induction p as [|i p IH]; intros q page Hnot.
  { destruct Hnot. apply prefix_nil. }
  destruct q as [|j q]; [done|]. simpl.
  destruct (decide (j = i)) as [->|Hne].
  - rewrite list_lookup_alter_eq. destruct (el_children page !! i) as [c|]; [|done].
    simpl. apply IH. intros Hpre. apply Hnot. by apply prefix_cons.
  - by rewrite list_lookup_alter_ne.
Qed.

Lemma deref_write_disjoint p q f page :
  ¬ p `prefix_of` q → ¬ q `prefix_of` p →
  deref q (write p f page) = deref q page.
Proof.
  revert q page. induction p as [|i p IH]; intros q page Hpq Hqp.
  { destruct Hpq. apply prefix_nil. }
  destruct q as [|j q]; [destruct Hqp; apply prefix_nil|]. simpl.
  destruct (decide (j = i)) as [->|Hne].
  - rewrite list_lookup_alter_eq. destruct (el_children page !! i) as [c|]; [|done].
    simpl. apply IH; intros Hpre; [apply Hpq|apply Hqp]; by apply prefix_cons.
  - by rewrite list_lookup_alter_ne.
Qed.

Lemma write_ext p f g page :
  (∀ el, f el = g el) → write p f page = write p g page.
Proof.
  intros Hfg. revert page. induction p as [|i p IH]; intros page; simpl; [done|].
  unfold with_children. f_equal. apply list_alter_ext; [|done]. intros; apply IH.
Qed.

Lemma write_write p f g page :
  write p f (write p g page) = write p (fun el => f (g el)) page.
Proof.
  revert page. induction p as [|i p IH]; intros page; simpl; [done|].
  unfold with_children. simpl. f_equal.
  rewrite list_alter_alter_eq. apply list_alter_ext; [|done].
  intros; apply IH.
Qed.

Lemma write_id p f page : (∀ el, f el = el) → write p f page = page.
Proof.
  intros Hf. revert page. induction p as [|i p IH]; intros page; simpl; [done|].
  unfold with_children. rewrite list_alter_id by done. by destruct page.
Qed.

Lemma getElementById_root id page :
  getElementById id page = Some [] ↔ has_id id page = true.
Proof.
  rewrite getElementById_unfold. destruct (has_id id page); [done|].
  split; [|done]. by intros (j & c & r' & ? & _)%first_child_Some.
Qed.

Lemma ids_alter_sublist (g : Element → Element) i (l : list Element) :
  (∀ c, ids (g c) `sublist_of` ids c) →
  concat (map ids (alter g i l)) `sublist_of` concat (map ids l).
Proof.
  intros Hg. revert i. induction l as [|c l IH]; intros [|i]; simpl; try done.
  - apply sublist_app; [apply Hg|reflexivity].
  - apply sublist_app; [reflexivity|apply IH].
Qed.

(** A write that brings no new ID into the element written to brings
    none into the page. *)
Lemma ids_write_sublist p f page :
  (∀ el, ids (f el) `sublist_of` ids el) →
  ids (write p f page) `sublist_of` ids page.
Proof.
  intros Hf. revert page. induction p as [|i p IH]; intros page; [apply Hf|].
  change (write (i :: p) f page)
    with (with_children (alter (write p f) i) page).
  rewrite (ids_unfold (with_children _ page)), (ids_unfold page). simpl.
  apply sublist_app; [reflexivity|]. apply ids_alter_sublist. intros c. apply IH.
Qed.

(** What [getElementById] found outside the element written to, or found
    to be that element, it finds again after the write. *)
Lemma getElementById_write_outside id p f page q :
  (∀ el, el_id (f el) = el_id el) →
  (∀ el, ids (f el) `sublist_of` ids el) →
  getElementById id page = Some q → ¬ inside p q →
  getElementById id (write p f page) = Some q.
Proof.
  intros Hid Hids. revert page q.
  induction p as [|i p IH]; intros page q Hfound Hout.
  { destruct q as [|j q].
    - apply getElementById_root in Hfound. apply getElementById_root.
      simpl. unfold has_id in *. by rewrite Hid.
    - destruct Hout. split; [apply prefix_nil|done]. }
  rewrite getElementById_unfold in Hfound. rewrite getElementById_unfold.
  simpl. change (has_id id (with_children (alter (write p f) i) page))
    with (has_id id page).
  destruct (has_id id page); [done|].
  apply first_child_Some in Hfound as (j & c & r & -> & Hj & Hr & Hbefore).
  apply first_child_Some. simpl in *.
  assert (Hkept : ∀ j' c', (j' < j)%nat →
            alter (write p f) i (el_children page) !! j' = Some c' →
            getElementById id c' = None).
  { intros j' c' Hlt. destruct (decide (i = j')) as [<-|Hne].
    - rewrite list_lookup_alter_eq.
      destruct (el_children page !! i) as [ci|] eqn:Hci; [|done].
      intros [= <-]. apply getElementById_None. intros Hin.
      apply (sublist_subseteq _ _ (ids_write_sublist p f ci Hids)) in Hin.
      revert Hin. apply getElementById_None. by apply (Hbefore i).
    - rewrite list_lookup_alter_ne by done. by apply Hbefore. }
  destruct (decide (i = j)) as [<-|Hne].
  - exists i, (write p f c), r. split; [done|].
    split; [by rewrite list_lookup_alter_eq, Hj|]. split; [|done].
    apply IH; [done|]. intros [Hpre Hneq]. apply Hout.
    split; [by apply prefix_cons|congruence].
  - exists j, c, r. split; [done|].
    split; [by rewrite list_lookup_alter_ne|done].
Qed.

(** When the element written to ends up with children that hold no ID,
    nothing inside it is found by [getElementById]. *)
Lemma getElementById_write_not_inside id p f page el q :
  deref p page = Some el →
  Forall (fun c => ids c = []) (el_children (f el)) →
  getElementById id (write p f page) = Some q → ¬ inside p q.
Proof.
  intros Hel Hnone (e & He & Hhas)%getElementById_Some [[r ->] Hne].
  rewrite deref_app, (deref_write_same _ _ _ _ Hel) in He. simpl in He.
  destruct r as [|k r]; [by rewrite app_nil_r in Hne|]. simpl in He.
  destruct (el_children (f el) !! k) as [c|] eqn:Hc; [|done].
  rewrite Forall_forall in Hnone.
  pose proof (deref_ids id r c e He Hhas) as Hin.
  rewrite (Hnone c) in Hin by (by eapply list_elem_of_lookup_2).
  by apply elem_of_nil in Hin.
Qed.

(** ** [createWall] *)

Lemma with_children_app (new new' : list Element) el :
  with_children (fun children => children ++ new')
                (with_children (fun children => children ++ new) el)
  = with_children (fun children => children ++ (new ++ new')) el.
Proof. destruct el. unfold with_children. simpl. by rewrite app_assoc. Qed.

(** The loop appends to the wall, and to the array it returns, the tiles
    of the indices it runs through, in order. *)
Lemma createWall_loop_spec turns :
  ∀ i wallIndex placed wallEl page tiles,
    createWall_loop turns i wallIndex placed wallEl page tiles
    = (let new := (fun k => wallTile wallIndex placed (i + Z.of_nat k))
                    <$> seq 0 turns in
       (write wallEl (with_children (fun children => children ++ new)) page,
        tiles ++ new)).
Proof.
  induction turns as [|turns IH]; intros i wallIndex placed wallEl page tiles.
  - simpl. rewrite app_nil_r, write_id; [done|].
    intros [id n s t children]. unfold with_children. simpl.
    by rewrite app_nil_r.
  - assert (Hnew : (fun k => wallTile wallIndex placed (i + 1 + Z.of_nat k))
                     <$> seq 0 turns
                   = (fun k => wallTile wallIndex placed (i + Z.of_nat k))
                     <$> seq 1 turns).
    { rewrite <- (fmap_S_seq 0), <- list_fmap_compose.
      apply list_fmap_ext. intros ? k ?. simpl. f_equal. lia. }
    simpl createWall_loop. rewrite IH. cbv zeta. rewrite Hnew.
    rewrite write_write. simpl. rewrite Z.add_0_r, <- app_assoc. f_equal.
    apply write_ext. intros el. unfold appendChild.
    by rewrite with_children_app.
Qed.

(** What [createWall] makes of a page on which it finds the wall. *)
Lemma createWall_spec wallId wallIndex totalTiles placed page wallEl :
  getElementById wallId page = Some wallEl →
  createWall wallId wallIndex totalTiles placed page
  = (let tiles := (fun k => wallTile wallIndex placed (Z.of_nat k))
                    <$> seq 0 (Z.to_nat totalTiles) in
     (Normal tiles,
      write wallEl
            (fun wall => {| el_id := el_id wall; el_node := el_node wall;
                            el_style := el_style wall; el_text := "";
                            el_children := tiles |}) page)).
Proof.
  intros Hfound. unfold createWall. rewrite Hfound.
  rewrite createWall_loop_spec. cbv zeta. simpl. by rewrite write_write.
Qed.

Lemma wallTile_tileId wallIndex placed i :
  dataset (el_node (wallTile wallIndex placed i)) !! "tileId"
  = Some (pretty wallIndex +:+ "-" +:+ pretty i).
Proof.
  unfold wallTile.
  destruct (positionTileInWall_marks
    (createTile (pretty wallIndex +:+ "-" +:+ pretty i) (Some wallIndex)
                (negb placed) (if placed then "fixed" else ""))
    wallIndex i 2) as (-> & _).
  unfold createTile. cbn [with_classList with_node el_node dataset set_data].
  repeat match goal with
         | |- context [el_node (set_style ?k ?v ?el)] =>
           destruct (set_style_node k v el) as (_ & _ & _ & ->)
         end.
  simpl. by simplify_map_eq.
Qed.

Lemma wallTile_classes wallIndex placed i c :
  c ∈ classList (el_node (wallTile wallIndex placed i))
  ↔ c = "mahjong-tile" ∨ (c = "fixed" ∧ placed = true)
    ∨ (c = "stacked" ∧ i `rem` 2 = 1).
Proof.
  unfold wallTile.
  destruct (positionTileInWall_marks
    (createTile (pretty wallIndex +:+ "-" +:+ pretty i) (Some wallIndex)
                (negb placed) (if placed then "fixed" else ""))
    wallIndex i 2) as (_ & Hclasses).
  rewrite Hclasses. clear Hclasses.
  unfold createTile. cbn [with_classList with_node el_node classList set_data].
  repeat match goal with
         | |- context [el_node (set_style ?k ?v ?el)] =>
           destruct (set_style_node k v el) as (_ & _ & -> & _)
         end.
  destruct placed; simpl;
    [change (classTokens (trim ("mahjong-tile " +:+ "fixed")))
       with ["mahjong-tile"; "fixed"]
    |change (classTokens (trim ("mahjong-tile " +:+ "")))
       with ["mahjong-tile"]];
    rewrite ?elem_of_cons, ?elem_of_nil; naive_solver.
Qed.

(** A tile of a wall has no id and no children. *)
Lemma wallTile_ids wallIndex placed i : ids (wallTile wallIndex placed i) = [].
Proof.
  assert (el_id (wallTile wallIndex placed i) = None
          ∧ el_children (wallTile wallIndex placed i) = []) as [Hid Hch].
  { unfold wallTile, positionTileInWall.
    case_bool_decide;
      destruct (bool_decide (wallIndex = 0) || bool_decide (wallIndex = 2));
      destruct (bool_decide (wallIndex = 1) || bool_decide (wallIndex = 3));
      cbn [with_classList with_node el_id el_children];
      repeat match goal with
             | |- context [set_style ?k ?v ?el] =>
               destruct (set_style_frame k v el) as (-> & _ & -> & _)
             end;
      unfold createTile;
      repeat match goal with
             | |- context [set_style ?k ?v ?el] =>
               destruct (set_style_frame k v el) as (-> & _ & -> & _)
             end; done. }
  by rewrite ids_unfold, Hid, Hch.
Qed.

Lemma concat_ids_nil (l : list Element) :
  Forall (fun c => ids c = []) l → concat (map ids l) = [].
Proof. induction 1 as [|c l Hc _ IH]; simpl; [done|]. by rewrite Hc, IH. Qed.

Lemma wallTiles_ids wallIndex placed (n : nat) :
  Forall (fun c => ids c = [])
         ((fun k => wallTile wallIndex placed (Z.of_nat k)) <$> seq 0 n).
Proof.
  apply Forall_fmap, Forall_forall. intros k _. apply wallTile_ids.
Qed.

(** X4.  [createWall] throws, changing nothing, when no element has the
    wall id.  Otherwise it returns as many tiles as [totalTiles] says (none
    for zero or less), the [k]-th being the tile of index [k], and the wall
    element, which is found under its id as before, ends up with no text
    and exactly these tiles as children.  What the wall held before is
    off the page: no element inside the wall is found by id any more.  An
    element outside the wall is found under its id as before, and
    nothing of it has changed; of the elements the wall lies in, nothing
    but what the wall holds. *)
Theorem createWall_tiles wallId wallIndex totalTiles placed
        (page : DocumentTree) :
  totalTiles ≤ 2 ^ 48 → safe_integer wallIndex →
  match getElementById wallId page with
  | None => createWall wallId wallIndex totalTiles placed page = (Throw, page)
  | Some wallEl =>
    ∃ tiles page' wall,
      createWall wallId wallIndex totalTiles placed page = (Normal tiles, page')
      ∧ length tiles = Z.to_nat totalTiles
      ∧ (∀ k, (k < Z.to_nat totalTiles)%nat →
              tiles !! k = Some (wallTile wallIndex placed (Z.of_nat k)))
      ∧ deref wallEl page = Some wall
      ∧ deref wallEl page'
        = Some {| el_id := el_id wall; el_node := el_node wall;
                  el_style := el_style wall; el_text := "";
                  el_children := tiles |}
      ∧ getElementById wallId page' = Some wallEl
      ∧ (∀ id r, getElementById id page' = Some r → ¬ inside wallEl r)
      ∧ (∀ id r, getElementById id page = Some r → ¬ inside wallEl r →
                 getElementById id page' = Some r)
      ∧ (∀ r, ¬ wallEl `prefix_of` r → ¬ r `prefix_of` wallEl →
              deref r page' = deref r page)
      ∧ (∀ r, ¬ wallEl `prefix_of` r →
              own <$> deref r page' = own <$> deref r page)
  end.
Proof.
  intros _ _.
  destruct (getElementById wallId page) as [wallEl|] eqn:Hfound;
    [|unfold createWall; by rewrite Hfound].
  rewrite (createWall_spec _ _ _ _ _ _ Hfound). cbv zeta.
  set (tiles := (fun k => wallTile wallIndex placed (Z.of_nat k))
                  <$> seq 0 (Z.to_nat totalTiles)).
  set (f := fun wall => {| el_id := el_id wall; el_node := el_node wall;
                           el_style := el_style wall; el_text := "";
                           el_children := tiles |}).
  destruct (getElementById_Some _ _ _ Hfound) as (wall & Hwall & _).
  assert (Hids : ∀ el, ids (f el) `sublist_of` ids el).
  { intros el. rewrite (ids_unfold (f el)), (ids_unfold el). simpl.
    rewrite (concat_ids_nil tiles) by apply wallTiles_ids.
    apply sublist_app; [reflexivity|apply sublist_nil_l]. }
  assert (Hself : ¬ inside wallEl wallEl) by (by intros [_ ?]).
  exists tiles, (write wallEl f page), wall.
  split; [done|]. split; [by unfold tiles; rewrite length_fmap, length_seq|].
  split.
  { intros k Hk. unfold tiles.
    by rewrite list_lookup_fmap, lookup_seq_lt by done. }
  split; [done|]. split; [by apply (deref_write_same _ f)|].
  split; [by apply getElementById_write_outside|].
  split.
  { intros id r. apply (getElementById_write_not_inside id _ f _ wall);
      [done|apply wallTiles_ids]. }
  split; [intros id r Hr Hout; by apply getElementById_write_outside|].
  split; [intros r; apply deref_write_disjoint|intros r; apply own_deref_write].
Qed.

Lemma createWall_tiles_witness :
  ∃ tiles page',
    createWall "wall-top" 1 4 false DemoPage.board = (Normal tiles, page')
    ∧ length tiles = 4%nat
    ∧ getElementById "old-tile" DemoPage.board = Some [0; 0]%nat
    ∧ (∀ r, getElementById "old-tile" page' = Some r → r ≠ [0; 0]%nat)
    ∧ getElementById "score" page' = Some [1; 0]%nat.
Proof.
  pose proof (createWall_tiles "wall-top" 1 4 false DemoPage.board) as Hwall.
  assert (Hfound : getElementById "wall-top" DemoPage.board = Some [0%nat])
    by reflexivity.
  rewrite Hfound in Hwall.
  destruct Hwall as (tiles & page' & wall & Hrun & Hlen & _ & _ & _ & _
                     & Hgone & Hkept & _).
  { lia. }
  { unfold safe_integer. lia. }
  exists tiles, page'. split; [exact Hrun|]. split; [exact Hlen|].
  split; [reflexivity|]. split.
  - intros r Hr ->. apply (Hgone _ _ Hr). split; [by exists [0%nat]|done].
  - apply Hkept; [reflexivity|]. intros [[k Hk] _]. discriminate Hk.
Defined.

Lemma createWall_returns wallId wallIndex totalTiles placed
      (page page' : DocumentTree) tiles :
  createWall wallId wallIndex totalTiles placed page = (Normal tiles, page') →
  tiles = (fun k => wallTile wallIndex placed (Z.of_nat k))
            <$> seq 0 (Z.to_nat totalTiles).
Proof.
  destruct (getElementById wallId page) as [wallEl|] eqn:Hfound.
  - rewrite (createWall_spec _ _ _ _ _ _ Hfound). by intros [= <- _].
  - unfold createWall. by rewrite Hfound.
Qed.

(** X5.  The tiles [createWall] returns carry pairwise different tile
    identifiers and are put at pairwise different places. *)
Theorem createWall_tiles_distinct wallId wallIndex totalTiles placed
        (page page' : DocumentTree) tiles :
  createWall wallId wallIndex totalTiles placed page = (Normal tiles, page') →
  NoDup ((fun tile => dataset (el_node tile) !! "tileId") <$> tiles)
  ∧ NoDup (position <$> tiles).
Proof.
  intros ->%createWall_returns. rewrite <- !list_fmap_compose. split.
  - apply NoDup_fmap_2_strong; [|apply NoDup_seq].
    intros k k' _ _. simpl. rewrite !wallTile_tileId.
    intros [= Heq]. apply (inj (String.app _)), (inj (String.app _)) in Heq.
    apply (inj pretty) in Heq. lia.
  - apply NoDup_fmap_2_strong; [|apply NoDup_seq].
    intros k k' _ _. simpl. unfold wallTile. intros Heq.
    apply position_eq_index in Heq; lia.
Qed.

Lemma createWall_tiles_distinct_witness :
  NoDup ((fun tile => dataset (el_node tile) !! "tileId")
           <$> ((fun k => wallTile 1 true (Z.of_nat k)) <$> seq 0 4))
  ∧ NoDup (position <$> ((fun k => wallTile 1 true (Z.of_nat k)) <$> seq 0 4)).
Proof.
  apply (createWall_tiles_distinct "wall-top" 1 4 true DemoPage.board
           (createWall "wall-top" 1 4 true DemoPage.board).2).
  reflexivity.
Defined.

(** ** [createTileCluster] *)

(** X6.  A cluster holds four, two or one tile when asked for four, two or
    one, and no tile at all for any other count.  Its tiles lie at pairwise
    different places; each has the classes [mahjong-tile] and [placed], no
    draggable flag, no data attribute and absolute positioning; and a tile
    has the gold border exactly in a two-tile cluster of the dealer in the
    final deal. *)
Theorem createTileCluster_children tileCount isDealer isFinal :
  length (el_children (createTileCluster tileCount isDealer isFinal))
  = (if bool_decide (tileCount ∈ [1; 2; 4]) then Z.to_nat tileCount else 0%nat)
  ∧ NoDup (position <$> el_children (createTileCluster tileCount isDealer isFinal))
  ∧ Forall (fun tile =>
              classList (el_node tile) = ["mahjong-tile"; "placed"]
              ∧ draggable (el_node tile) = false
              ∧ dataset (el_node tile) = ∅
              ∧ el_style tile !! "position" = Some "absolute"
              ∧ el_style tile !! "border"
                = (if bool_decide (tileCount = 2) && isFinal && isDealer
                   then Some "2px solid gold" else None))
           (el_children (createTileCluster tileCount isDealer isFinal)).
Proof.
  unfold createTileCluster.
  destruct (decide (tileCount = 4)) as [->|H4];
    [by destruct isDealer, isFinal; compute_done|].
  destruct (decide (tileCount = 2)) as [->|H2];
    [by destruct isDealer, isFinal; compute_done|].
  destruct (decide (tileCount = 1)) as [->|H1];
    [by destruct isDealer, isFinal; compute_done|].
  rewrite !(bool_decide_eq_false_2 (tileCount = _)) by done.
  rewrite bool_decide_eq_false_2; [simpl; repeat split; constructor|].
  rewrite !elem_of_cons, elem_of_nil. tauto.
Qed.

(** ** [updateStat] and [updateStats] *)

Lemma entry_of_snoc entries k v id :
  entry_of (entries ++ [(k, v)]) id
  = match entry_of entries id with
    | Some value => Some value
    | None => if bool_decide (k = id) then Some v else None
    end.
Proof.
  unfold entry_of. induction entries as [|[k' v'] entries IH]; simpl.
  - by destruct (bool_decide (k = id)).
  - destruct (bool_decide (k' = id)); [done|apply IH].
Qed.

Lemma entry_of_Some entries id value :
  entry_of entries id = Some value → id ∈ entries.*1.
Proof.
  unfold entry_of. intros Hfind.
  destruct (List.find _ entries) as [[k v]|] eqn:Hk; [|done].
  apply List.find_some in Hk as [Hin Hk]. apply bool_decide_eq_true_1 in Hk.
  simpl in Hk. subst k. apply list_elem_of_fmap. exists (id, v).
  split; [done|by apply list_elem_of_In].
Qed.

Lemma stat_of_snoc entries k v el :
  stat_of (entries ++ [(k, v)]) el
  = match stat_of entries el with
    | Some value => Some value
    | None => if has_id k el then Some v else None
    end.
Proof.
  unfold stat_of, has_id. destruct (el_id el) as [id|]; [|done].
  destruct (decide (id = "")) as [->|Hid].
  - rewrite (bool_decide_eq_true_2 ("" = "")) by done.
    case_bool_decide as Hk; [|done]. injection Hk as <-.
    by rewrite (bool_decide_eq_true_2 ("" = "")) by done.
  - rewrite (bool_decide_eq_false_2 (id = "")) by done. rewrite entry_of_snoc.
    destruct (entry_of entries id); [done|].
    destruct (decide (k = id)) as [->|Hne].
    + rewrite !bool_decide_eq_true_2 by done.
      by rewrite (bool_decide_eq_false_2 (id = "")) by done.
    + rewrite (bool_decide_eq_false_2 (k = id)) by done.
      rewrite (bool_decide_eq_false_2 (Some id = Some k)); [done|congruence].
Qed.

Lemma stat_of_Some entries el value :
  stat_of entries el = Some value →
  ∃ id, has_id id el = true ∧ id ∈ entries.*1.
Proof.
  unfold stat_of, has_id. destruct (el_id el) as [id|]; [|done].
  case_bool_decide as Hid; [done|]. intros Hentry%entry_of_Some.
  exists id. split; [|done]. rewrite bool_decide_eq_true_2 by done.
  by rewrite bool_decide_eq_false_2 by done.
Qed.

Lemma has_id_inj id id' el :
  has_id id el = true → has_id id' el = true → id = id'.
Proof.
  unfold has_id. intros [H1 _]%andb_true_iff [H2 _]%andb_true_iff.
  apply bool_decide_eq_true_1 in H1, H2. congruence.
Qed.

Lemma el_id_stats_applied entries el :
  el_id (stats_applied entries el) = el_id el.
Proof. rewrite stats_applied_unfold. by destruct (stat_of entries el). Qed.

Lemma has_id_stats_applied entries id el :
  has_id id (stats_applied entries el) = has_id id el.
Proof. unfold has_id. by rewrite el_id_stats_applied. Qed.

Lemma stats_applied_nil el : stats_applied [] el = el.
Proof.
  induction el as [el IH] using Element_tree_ind.
  rewrite stats_applied_unfold.
  assert (stat_of [] el = None) as ->.
  { unfold stat_of. destruct (el_id el); [by case_bool_decide|done]. }
  destruct el as [id n s t children]. unfold with_children. simpl in *.
  f_equal. induction IH as [|c l Hc _ IHl]; simpl; [done|].
  by rewrite Hc, IHl.
Qed.

Lemma ids_map_sublist (g : Element → Element) (l : list Element) :
  Forall (fun c => ids (g c) `sublist_of` ids c) l →
  concat (map ids (map g l)) `sublist_of` concat (map ids l).
Proof.
  induction 1 as [|c l Hc _ IH]; simpl; [done|]. by apply sublist_app.
Qed.

Lemma ids_stats_applied entries el :
  ids (stats_applied entries el) `sublist_of` ids el.
Proof.
  induction el as [el IH] using Element_tree_ind.
  rewrite stats_applied_unfold, (ids_unfold el).
  destruct (stat_of entries el).
  - rewrite ids_unfold. simpl. rewrite app_nil_r. apply sublist_inserts_r.
    reflexivity.
  - rewrite ids_unfold. simpl. apply sublist_app; [reflexivity|].
    by apply ids_map_sublist.
Qed.

(** In a list of trees whose IDs are pairwise different, an ID occurs in
    one tree only. *)
Lemma ids_children_disjoint (l : list Element) n m a b id :
  NoDup (concat (map ids l)) →
  l !! n = Some a → l !! m = Some b → n ≠ m →
  id ∈ ids a → id ∉ ids b.
Proof.
  revert n m. induction l as [|c l IH]; intros n m Hnodup Hn Hm Hne Ha Hb;
    [done|].
  simpl in Hnodup. apply NoDup_app in Hnodup as (_ & Hfresh & Hrest).
  destruct n as [|n], m as [|m]; simpl in *; try done.
  - injection Hn as <-. apply (Hfresh id Ha). apply elem_of_concat_map.
    exists b. split; [by eapply list_elem_of_lookup_2|done].
  - injection Hm as <-. apply (Hfresh id Hb). apply elem_of_concat_map.
    exists a. split; [by eapply list_elem_of_lookup_2|done].
  - apply (IH n m); (done || congruence).
Qed.

Lemma ids_children_NoDup (l : list Element) n c :
  NoDup (concat (map ids l)) → l !! n = Some c → NoDup (ids c).
Proof.
  revert n. induction l as [|a l IH]; intros n Hnodup Hn; [done|].
  simpl in Hnodup. apply NoDup_app in Hnodup as (Ha & _ & Hrest).
  destruct n as [|n]; simpl in Hn; [by injection Hn as <-|]. by apply (IH n).
Qed.

Lemma ids_NoDup_children el :
  NoDup (ids el) → NoDup (concat (map ids (el_children el))).
Proof. rewrite ids_unfold. by intros (_ & _ & ?)%NoDup_app. Qed.

(** One more entry, for a key that is new: what [updateStat] does to the
    page the earlier entries left is what all the entries together ask
    for. *)
Lemma updateStat_stats_applied entries k v el :
  k ∉ entries.*1 → NoDup (ids el) →
  updateStat k v (stats_applied entries el)
  = stats_applied (entries ++ [(k, v)]) el.
Proof.
  intros Hk. induction el as [el IH] using Element_tree_ind. intros Hnodup.
  rewrite (stats_applied_unfold entries el),
    (stats_applied_unfold (entries ++ _) el), stat_of_snoc.
  destruct (stat_of entries el) as [v0|] eqn:Hstat.
  { unfold updateStat. rewrite getElementById_unfold.
    apply stat_of_Some in Hstat as (id & Hid & Hin).
    change (has_id k (set_textContent v0 el)) with (has_id k el).
    destruct (has_id k el) eqn:Hkel; [|done].
    by rewrite (has_id_inj _ _ _ Hkel Hid) in Hk. }
  unfold updateStat. rewrite getElementById_unfold.
  change (has_id k (with_children (map (stats_applied entries)) el))
    with (has_id k el).
  destruct (has_id k el) eqn:Hkel; [done|].
  apply ids_NoDup_children in Hnodup.
  rewrite Forall_lookup in IH.
  assert (Hchild : ∀ n c, el_children el !! n = Some c →
            getElementById k (stats_applied entries c) = None →
            stats_applied entries c = stats_applied (entries ++ [(k, v)]) c).
  { intros n c Hc Hnone. rewrite <- (IH n c Hc).
    - unfold updateStat. by rewrite Hnone.
    - by apply (ids_children_NoDup (el_children el) n). }
  simpl.
  destruct (first_child _ _ _) as [r0|] eqn:Hfirst.
  - apply first_child_Some in Hfirst as (j & c' & r & -> & Hj & Hr & Hbefore).
    rewrite list_lookup_fmap in Hj.
    destruct (el_children el !! j) as [c|] eqn:Hc; [|done].
    injection Hj as <-. simpl. unfold with_children. simpl. f_equal.
    apply list_eq. intros n. rewrite !list_lookup_fmap.
    destruct (decide (j = n)) as [<-|Hne].
    + rewrite list_lookup_alter_eq, list_lookup_fmap, Hc. simpl. f_equal.
      rewrite <- (IH j c Hc) by (by apply (ids_children_NoDup (el_children el) j)).
      unfold updateStat. by rewrite Hr.
    + rewrite list_lookup_alter_ne, list_lookup_fmap by done.
      destruct (el_children el !! n) as [cn|] eqn:Hcn; [|done]. simpl. f_equal.
      apply (Hchild n cn Hcn). apply getElementById_None.
      destruct (decide (n < j)%nat) as [Hlt|Hge].
      * apply getElementById_None. apply (Hbefore n); [done|].
        by rewrite list_lookup_fmap, Hcn.
      * intros Hin%(sublist_subseteq _ _ (ids_stats_applied entries cn)).
        revert Hin. apply (ids_children_disjoint (el_children el) j n c cn k); try done.
        apply (sublist_subseteq _ _ (ids_stats_applied entries c)).
        destruct (getElementById_Some _ _ _ Hr) as (e & He & Hhas).
        by apply (deref_ids k r _ e).
  - apply first_child_None in Hfirst. rewrite Forall_lookup in Hfirst.
    unfold with_children. f_equal. apply list_eq. intros n.
    rewrite !list_lookup_fmap.
    destruct (el_children el !! n) as [cn|] eqn:Hcn; [|done]. simpl. f_equal.
    apply (Hchild n cn Hcn). apply (Hfirst n).
    by rewrite list_lookup_fmap, Hcn.
Qed.

(** [updateStats] gives the page the entries ask for, whatever their
    order. *)
Lemma updateStats_stats_applied entries page :
  NoDup entries.*1 → NoDup (ids page) →
  updateStats entries page = stats_applied entries page.
Proof.
  intros Hkeys Hids. induction entries as [|[k v] entries IH] using rev_ind.
  { by rewrite stats_applied_nil. }
  rewrite fmap_app in Hkeys. apply NoDup_app in Hkeys as (Hkeys & Hfresh & _).
  unfold updateStats in *. rewrite foldl_app. simpl. rewrite IH by done.
  apply updateStat_stats_applied; [|done].
  intros Hin. apply (Hfresh k Hin). simpl. apply list_elem_of_here.
Qed.

(** Where the elements of the page the entries ask for come from. *)
Lemma deref_stats_applied entries r :
  ∀ el el',
    deref r (stats_applied entries el) = Some el'
    ↔ ∃ e, deref r el = Some e ∧ el' = stats_applied entries e
           ∧ ∀ q above, inside q r → deref q el = Some above →
                        stat_of entries above = None.
Proof.
  induction r as [|i r IH]; intros el el'.
  { simpl. split.
    - intros [= <-]. exists el. repeat split; try done.
      intros q above [Hpre Hne]. by apply prefix_nil_inv in Hpre.
    - by intros (e & [= <-] & -> & _). }
  rewrite stats_applied_unfold. destruct (stat_of entries el) eqn:Hstat.
  { simpl. split; [done|]. intros (e & _ & _ & Habove).
    rewrite (Habove [] el) in Hstat; [done| |done].
    split; [apply prefix_nil|done]. }
  simpl. rewrite list_lookup_fmap.
  destruct (el_children el !! i) as [c|] eqn:Hc; simpl;
    [|split; [done|by intros (e & ? & _)]].
  rewrite IH. split.
  - intros (e & He & -> & Habove). exists e. repeat split; try done.
    intros [|j q] above [Hpre Hne]; simpl.
    + by intros [= <-].
    + pose proof (prefix_cons_inv_1 _ _ _ _ Hpre) as ->.
      rewrite Hc. apply Habove. split; [by eapply prefix_cons_inv_2|congruence].
  - intros (e & He & -> & Habove). exists e. repeat split; try done.
    intros q above [Hpre Hne] Hq. apply (Habove (i :: q)).
    + split; [by apply prefix_cons|congruence].
    + simpl. by rewrite Hc.
Qed.

(** X7.  On a page whose ids are pairwise different, [updateStats] with
    stats whose keys are pairwise different gives the same page whatever
    the order of the entries.  An element that is on the page afterwards
    stood at the same place before, with the same id, properties and
    style; when its id is a key, it shows the value of that key as its
    text and has no children, and when not, it has the text and the
    number of children it had.  An element of the page before is still
    on it afterwards exactly when no element it lies inside has a key for
    its id: what such an element held is gone, with the ids in it. *)
Theorem updateStats_lookup entries (page : DocumentTree) :
  NoDup entries.*1 → NoDup (ids page) →
  updateStats entries page = stats_applied entries page
  ∧ (∀ r el',
       deref r (updateStats entries page) = Some el' →
       ∃ el, deref r page = Some el
             ∧ el_id el' = el_id el ∧ el_node el' = el_node el
             ∧ el_style el' = el_style el
             ∧ match stat_of entries el with
               | Some value => el_text el' = value ∧ el_children el' = []
               | None => el_text el' = el_text el
                         ∧ length (el_children el') = length (el_children el)
               end)
  ∧ (∀ r el,
       deref r page = Some el →
       (is_Some (deref r (updateStats entries page))
        ↔ ∀ q above, inside q r → deref q page = Some above →
                     stat_of entries above = None)).
Proof.
  intros Hkeys Hids. rewrite updateStats_stats_applied by done.
  split; [done|]. split.
  - intros r el' (el & Hel & -> & _)%deref_stats_applied.
    exists el. split; [done|]. rewrite stats_applied_unfold.
    destruct (stat_of entries el); simpl; [done|].
    by rewrite length_map.
  - intros r el Hel. split.
    + by intros [el' (e & _ & _ & Habove)%deref_stats_applied].
    + intros Habove. exists (stats_applied entries el).
      apply deref_stats_applied. by exists el.
Qed.

Lemma updateStats_lookup_witness :
  updateStats [("tilesLeft", "72"); ("score", "8"); ("missing", "1")]
              DemoPage.board
  = stats_applied [("tilesLeft", "72"); ("score", "8"); ("missing", "1")]
                  DemoPage.board
  ∧ (el_text <$> deref [1; 0]%nat
       (updateStats [("tilesLeft", "72"); ("score", "8"); ("missing", "1")]
                    DemoPage.board))
    = Some "8"
  ∧ getElementById "label" DemoPage.board = Some [1; 1; 0]%nat
  ∧ deref [1; 1; 0]%nat
      (updateStats [("tilesLeft", "72"); ("score", "8"); ("missing", "1")]
                   DemoPage.board)
    = None.
Proof.
  destruct (updateStats_lookup
              [("tilesLeft", "72"); ("score", "8"); ("missing", "1")]
              DemoPage.board) as (Heq & _ & _).
  - compute_done.
  - compute_done.
  - split; [exact Heq|]. repeat split; reflexivity.
Defined.

(** ** [highlightCurrentPlayer] *)

Lemma remove_token_idem c (l : list string) :
  remove_token c (remove_token c l) = remove_token c l.
Proof.
  unfold remove_token. rewrite list_filter_filter.
  apply list_filter_iff. tauto.
Qed.

Lemma with_classList_remove_idem c el :
  with_classList (remove_token c) (with_classList (remove_token c) el)
  = with_classList (remove_token c) el.
Proof.
  unfold with_classList, with_node. simpl. by rewrite remove_token_idem.
Qed.

Lemma forEach_remove_valid c ids :
  valid_token c = true →
  ∀ page : Ids, ∃ page' : Ids,
    forEach_remove c ids page = (Normal tt, page')
    ∧ ∀ id, page' !! id
            = if bool_decide (id ∈ ids)
              then with_classList (remove_token c) <$> page !! id
              else page !! id.
Proof.
  intros Hvalid. induction ids as [|playerId rest IH]; intros page.
  { exists page. split; [done|]. intros id.
    rewrite bool_decide_eq_false_2; [done|]. by intros ?%elem_of_nil. }
  simpl. unfold classList_remove. rewrite Hvalid.
  destruct (page !! playerId) as [element|] eqn:Hel.
  - destruct (IH (<[playerId := with_classList (remove_token c) element]> page))
      as (page' & -> & Hlookup).
    exists page'. split; [done|]. intros id. rewrite Hlookup.
    destruct (decide (id = playerId)) as [->|Hne].
    + rewrite lookup_insert_eq, Hel, (bool_decide_eq_true_2 (_ ∈ _ :: _))
        by apply list_elem_of_here.
      case_bool_decide; simpl; [by rewrite with_classList_remove_idem|done].
    + rewrite lookup_insert_ne by done.
      assert (Hiff : id ∈ rest ↔ id ∈ playerId :: rest)
        by (rewrite elem_of_cons; naive_solver).
      by rewrite (bool_decide_ext _ _ Hiff).
  - destruct (IH page) as (page' & -> & Hlookup).
    exists page'. split; [done|]. intros id. rewrite Hlookup.
    destruct (decide (id = playerId)) as [->|Hne].
    + rewrite Hel. by do 2 case_bool_decide.
    + assert (Hiff : id ∈ rest ↔ id ∈ playerId :: rest)
        by (rewrite elem_of_cons; naive_solver).
      by rewrite (bool_decide_ext _ _ Hiff).
Qed.

(** X8.  With a class name that is a valid token, [highlightCurrentPlayer]
    completes and changes classes only: afterwards an element of the page
    has the class exactly when it is the current player's element, or it is
    none of the listed players' elements and had the class before; every
    other class of every element is as before, and no element is created
    or removed. *)
Theorem highlightCurrentPlayer_marks_current className currentPlayerId
        allPlayerIds (page : Ids) :
  valid_token className = true →
  ∃ page' : Ids,
    highlightCurrentPlayer className currentPlayerId allPlayerIds page
    = (Normal tt, page')
    ∧ ∀ id,
        match page' !! id with
        | None => page !! id = None
        | Some el' =>
          ∃ el, page !! id = Some el
                ∧ same_but_classes el el'
                ∧ (∀ c, c ≠ className →
                        (c ∈ classList (el_node el') ↔ c ∈ classList (el_node el)))
                ∧ (className ∈ classList (el_node el')
                   ↔ id = currentPlayerId
                     ∨ (id ∉ allPlayerIds ∧ className ∈ classList (el_node el)))
        end.
Proof.
  intros Hvalid. unfold highlightCurrentPlayer.
  destruct (forEach_remove_valid className allPlayerIds Hvalid page)
    as (page1 & -> & Hlookup).
  unfold classList_add. rewrite Hvalid.
  assert (Hrm : ∀ c l, c ∈ remove_token className l ↔ c ∈ l ∧ c ≠ className).
  { intros c l. unfold remove_token. rewrite list_elem_of_filter. tauto. }
  assert (Hadd : ∀ c l, c ∈ add_token className l ↔ c ∈ l ∨ c = className).
  { intros c l. unfold add_token. case_bool_decide.
    - naive_solver.
    - rewrite elem_of_app, list_elem_of_singleton. tauto. }
  destruct (page1 !! currentPlayerId) as [current|] eqn:Hcur.
  - eexists. split; [reflexivity|]. intros id.
    destruct (decide (id = currentPlayerId)) as [->|Hne].
    + rewrite lookup_insert_eq. rewrite Hlookup in Hcur.
      destruct (page !! currentPlayerId) as [el|]; [|by case_bool_decide].
      exists el. split; [done|].
      case_bool_decide; simpl in Hcur; injection Hcur as <-; simpl;
        (split; [unfold same_but_classes; by repeat split|]); split;
        [intros c Hc; rewrite ?Hadd, ?Hrm; naive_solver
        |rewrite ?Hadd, ?Hrm; naive_solver..].
    + rewrite lookup_insert_ne by done. rewrite Hlookup.
      destruct (page !! id) as [el|]; [|by case_bool_decide].
      case_bool_decide; simpl; exists el; (split; [done|]);
        (split; [unfold same_but_classes; by repeat split|]); split;
        [intros c Hc; rewrite ?Hrm; naive_solver
        |rewrite ?Hrm; naive_solver..].
  - exists page1. split; [done|]. intros id. rewrite Hlookup.
    rewrite Hlookup in Hcur.
    destruct (page !! id) as [el|] eqn:Hel;
      [|by destruct (bool_decide (id ∈ allPlayerIds))].
    assert (id ≠ currentPlayerId).
    { intros ->. rewrite Hel in Hcur.
      by destruct (bool_decide (currentPlayerId ∈ allPlayerIds)). }
    destruct (bool_decide (id ∈ allPlayerIds)) eqn:Hlisted;
      [apply bool_decide_eq_true in Hlisted
      |apply bool_decide_eq_false in Hlisted]; simpl; exists el; (split; [done|]);
      (split; [unfold same_but_classes; by repeat split|]); split;
      [intros c Hc; rewrite ?Hrm; naive_solver
      |rewrite ?Hrm; naive_solver..].
Qed.

Lemma highlightCurrentPlayer_marks_current_witness :
  ∃ page' : Ids,
    highlightCurrentPlayer "active" "east" ["east"; "south"; "west"]
      {[ "east" := createElement_div;
         "south" := with_classList (add_token "active") createElement_div ]}
    = (Normal tt, page')
    ∧ ∀ id,
        match page' !! id with
        | None =>
          ({[ "east" := createElement_div;
              "south" := with_classList (add_token "active") createElement_div ]}
             : Ids) !! id = None
        | Some el' =>
          ∃ el,
            ({[ "east" := createElement_div;
                "south" := with_classList (add_token "active") createElement_div ]}
               : Ids) !! id = Some el
            ∧ same_but_classes el el'
            ∧ (∀ c, c ≠ "active" →
                    (c ∈ classList (el_node el') ↔ c ∈ classList (el_node el)))
            ∧ ("active" ∈ classList (el_node el')
               ↔ id = "east"
                 ∨ (id ∉ ["east"; "south"; "west"]
                    ∧ "active" ∈ classList (el_node el)))
        end.
Proof.
  exact (highlightCurrentPlayer_marks_current "active" "east"
           ["east"; "south"; "west"]
           {[ "east" := createElement_div;
              "south" := with_classList (add_token "active") createElement_div ]}
           eq_refl).
Defined.

Example highlight_moves_the_class :
  (fun el => classList (el_node el)) <$>
    (highlightCurrentPlayer "active" "east" ["east"; "south"; "west"]
       {[ "east" := createElement_div;
          "south" := with_classList (add_token "active") createElement_div ]}).2
  = {[ "east" := ["active"]; "south" := [] ]}.
Proof. by apply map_eq; intros id; vm_compute. Qed.

Lemma forEach_remove_invalid c ids (page : Ids) :
  valid_token c = false →
  forEach_remove c ids page
  = (if existsb (fun id => bool_decide (is_Some (page !! id))) ids
     then Throw else Normal tt, page).
Proof.
  intros Hinvalid. induction ids as [|playerId rest IH]; [done|].
  simpl. unfold classList_remove. rewrite Hinvalid.
  destruct (page !! playerId) as [element|]; simpl.
  - done.
  - by rewrite IH.
Qed.

(** X9.  With a class name that is not a valid token (empty, or holding
    white space), [highlightCurrentPlayer] changes nothing at all, and it
    throws exactly when one of the listed players or the current player has
    an element. *)
Theorem highlightCurrentPlayer_invalid_token className currentPlayerId
        allPlayerIds (page : Ids) :
  valid_token className = false →
  (highlightCurrentPlayer className currentPlayerId allPlayerIds page).2 = page
  ∧ ((highlightCurrentPlayer className currentPlayerId allPlayerIds page).1 = Throw
     ↔ ∃ id, (id ∈ allPlayerIds ∨ id = currentPlayerId) ∧ is_Some (page !! id)).
Proof.
  intros Hinvalid. unfold highlightCurrentPlayer.
  rewrite forEach_remove_invalid by done.
  destruct (existsb _ allPlayerIds) eqn:Hany.
  - split; [done|]. split; [|done]. intros _.
    apply existsb_exists in Hany as (id & Hin & Hsome).
    exists id. split; [left; by apply list_elem_of_In|].
    by apply bool_decide_eq_true in Hsome.
  - unfold classList_add. rewrite Hinvalid.
    assert (Hnone : ∀ id, id ∈ allPlayerIds → page !! id = None).
    { intros id Hin. destruct (page !! id) eqn:Hel; [|done].
      assert (existsb (fun id => bool_decide (is_Some (page !! id)))
                      allPlayerIds = true); [|congruence].
      apply existsb_exists. exists id. split; [by apply list_elem_of_In|].
      apply bool_decide_eq_true. rewrite Hel. by eexists. }
    destruct (page !! currentPlayerId) as [element|] eqn:Hcur; simpl.
    + split; [done|]. split; [|done]. intros _.
      exists currentPlayerId. split; [by right|]. rewrite Hcur. by eexists.
    + split; [done|]. split; [done|].
      intros (id & [Hin | ->] & [el Hel]).
      * rewrite Hnone in Hel by done. done.
      * rewrite Hcur in Hel. done.
Qed.

Lemma highlightCurrentPlayer_invalid_token_witness :
  (highlightCurrentPlayer "is active" "east" ["south"; "east"]
     {[ "east" := createElement_div ]}).2 = {[ "east" := createElement_div ]}
  ∧ ((highlightCurrentPlayer "is active" "east" ["south"; "east"]
        {[ "east" := createElement_div ]}).1 = Throw
     ↔ ∃ id, (id ∈ ["south"; "east"] ∨ id = "east")
             ∧ is_Some (({[ "east" := createElement_div ]} : Ids) !! id)).
Proof.
  exact (highlightCurrentPlayer_invalid_token "is active" "east"
           ["south"; "east"] {[ "east" := createElement_div ]} eq_refl).
Defined.

(** ** Tiles the helpers make, under the drag layer *)

Lemma cluster_tile_classes tileCount isDealer isFinal el :
  el ∈ el_children (createTileCluster tileCount isDealer isFinal) →
  classList (el_node el) = ["mahjong-tile"; "placed"].
Proof.
  unfold createTileCluster.
  repeat case_bool_decide; simpl; destruct (isFinal && isDealer);
    rewrite ?elem_of_app, ?elem_of_cons, ?elem_of_nil;
    intros Hin; repeat (destruct Hin as [Hin|Hin]); try done; by subst el.
Qed.

Lemma made_tile_class el :
  made_tile el → "mahjong-tile" ∈ classList (el_node el).
Proof.
  intros [(tileId & wallIndex & flag & classes & ->)
         |[(wallIndex & placed & i & ->)
          |(tileCount & isDealer & isFinal & Hin)]].
  - unfold createTile. destruct wallIndex; simpl; apply classTokens_tile.
  - apply wallTile_classes. by left.
  - rewrite (cluster_tile_classes _ _ _ _ Hin). apply list_elem_of_here.
Qed.

(** X18.  Every tile the helpers make ([createTile], the tiles of
    [createWall], fixed ones included, and the tiles of a cluster) carries
    the tile class, so that in a document an element built like it, not
    inside a button, link or input, passes the touch pre-filter and the
    start test whatever its draggable flag and identifier are: a touch on
    it that resolves to it opens a drag session on it. *)
Theorem made_tiles_start_a_drag_on_touch {U : Type}
        (elementFromPoint : Dom → Z → Z → option ElemId)
        (handlers : Handlers U) (event : NativeEvent) (w : World U)
        (t : ElemId) (el : Element) :
  made_tile el →
  built_like el (document w t) →
  ¬ within_interactive (document w) t →
  ev_type event = E_touchstart →
  ev_target event = t →
  startTarget elementFromPoint event w = Some t →
  closest (document w) sel_tile t = Some t
  ∧ eligible (document w) (Some t) = true
  ∧ isDragging (session (touchStartHandler elementFromPoint handlers
                                             event w).2) = true
  ∧ draggedElement (session (touchStartHandler elementFromPoint handlers
                                               event w).2) = Some t.
Proof.
  intros Hmade (_ & _ & Hclasses & _) Hfree Htype Htarget Hstart.
  assert (Hclass : "mahjong-tile" ∈ classList (document w t)).
  { rewrite Hclasses. by apply made_tile_class. }
  assert (Hclosest : closest (document w) sel_tile t = Some t).
  { unfold closest. simpl. unfold matches, sel_tile. simpl.
    by rewrite (bool_decide_eq_true_2 _ Hclass). }
  assert (Heligible : eligible (document w) (Some t) = true).
  { unfold eligible.
    destruct (isNonDraggableInteractive (document w) (Some t)) eqn:Hint.
    { by apply isNonDraggableInteractive_spec in Hint. }
    unfold isDraggableElement.
    rewrite (bool_decide_eq_true_2 _ Hclass). by rewrite orb_true_r. }
  split; [done|]. split; [done|].
  unfold touchStartHandler, bind, gets. simpl. rewrite Htarget, Hclosest.
  rewrite <- Hstart in Heligible.
  destruct (unifiedDragStart_eligible elementFromPoint handlers event w
              (or_intror Htype) Heligible) as (Hon & Hd & _).
  by rewrite Hon, Hd.
Qed.


(** ** Concrete runs of the further properties *)

Lemma dragover_forwarded_every_time_witness :
  drop (length (trace Demo.start))
       (trace (run Demo.hitTest Demo.allQuiet
                   [Demo.mouse E_dragover 2%nat 50 50;
                    Demo.mouse E_dragover 2%nat 51 50] Demo.start))
  = [APreventDefault; ACall HDragOver (Native (Demo.mouse E_dragover 2%nat 50 50));
     APreventDefault; ACall HDragOver (Native (Demo.mouse E_dragover 2%nat 51 50))]
  ∧ count_calls HDragOver
      (drop (length (trace Demo.start))
            (trace (run Demo.hitTest Demo.allQuiet
                        [Demo.mouse E_dragover 2%nat 50 50;
                         Demo.mouse E_dragover 2%nat 51 50] Demo.start)))
    = 2%nat
  ∧ session (run Demo.hitTest Demo.allQuiet
                 [Demo.mouse E_dragover 2%nat 50 50;
                  Demo.mouse E_dragover 2%nat 51 50] Demo.start)
    = session Demo.start.
Proof.
  apply (dragover_forwarded_every_time Demo.hitTest Demo.allQuiet
           (Demo.quiet 11)
           [Demo.mouse E_dragover 2%nat 50 50; Demo.mouse E_dragover 2%nat 51 50]
           Demo.start); [reflexivity|repeat constructor].
Defined.

Lemma demo_quiet_never_throws ref : never_throws (Demo.quiet ref).
Proof. intros arg d u. reflexivity. Defined.

Lemma touchmove_leaves_then_enters_witness :
  emitted (unifiedDragOver Demo.hitTest Demo.allQuiet
             (Demo.touch E_touchmove 1%nat 205 5))
          (run Demo.hitTest Demo.allQuiet [Demo.touch E_touchmove 1%nat 50 50]
               (Demo.dragging Demo.allQuiet))
  = [APreventDefault;
     ACall HDragLeave
       (Synthetic {| se_type := E_dragleave; se_target := Some 2%nat;
                     se_coords := None; se_getData := None;
                     se_setData := false |});
     ACall HDragOver
       (Synthetic {| se_type := E_dragover; se_target := Some 3%nat;
                     se_coords := Some (205, 5); se_getData := None;
                     se_setData := false |})]
  ∧ currentDropTarget
      (session (unifiedDragOver Demo.hitTest Demo.allQuiet
                  (Demo.touch E_touchmove 1%nat 205 5)
                  (run Demo.hitTest Demo.allQuiet
                       [Demo.touch E_touchmove 1%nat 50 50]
                       (Demo.dragging Demo.allQuiet))).2)
    = Some 3%nat.
Proof.
  apply (touchmove_leaves_then_enters Demo.hitTest Demo.allQuiet
           (Demo.touch E_touchmove 1%nat 205 5)
           (run Demo.hitTest Demo.allQuiet [Demo.touch E_touchmove 1%nat 50 50]
                (Demo.dragging Demo.allQuiet))
           2%nat (Demo.quiet 12) (Demo.quiet 11));
    try reflexivity; [discriminate|apply demo_quiet_never_throws].
Defined.

Lemma idle_page_ignores_touches_witness :
  run Demo.hitTest Demo.allQuiet
      (Demo.movesOverZone ++ [Demo.touch E_touchend 1%nat 70 70;
                              Demo.touch E_touchcancel 1%nat 70 70])
      Demo.start
  = Demo.start.
Proof.
  apply (idle_page_ignores_touches Demo.hitTest Demo.allQuiet); [reflexivity|].
  repeat (apply List.Forall_cons; [cbn; auto|]). apply List.Forall_nil.
Defined.

Lemma dragStart_payload_is_fresh_witness :
  dragData (session (unifiedDragStart Demo.hitTest (Demo.withProto "B3")
                       (Demo.touch E_touchstart 1%nat 5 5) Demo.start).2)
    !! "__proto__" = None
  ∧ dragData (session (unifiedDragStart Demo.hitTest (Demo.withProto "B3")
                         (Demo.touch E_touchstart 1%nat 5 5) Demo.start).2)
      !! "text/plain" = Some "B3"
  ∧ dragData (session (unifiedDragStart Demo.hitTest (Demo.withProto "B3")
                         (Demo.touch E_touchstart 1%nat 5 5) Demo.start).2)
      !! "text/uri-list" = None.
Proof.
  destruct (dragStart_payload_is_fresh Demo.hitTest (Demo.withProto "B3")
              (Demo.touch E_touchstart 1%nat 5 5) Demo.start
              (Demo.protoSetter 10 "B3") (or_intror eq_refl) eq_refl eq_refl)
    as (se & _ & Hkeys & _).
  rewrite !Hkeys. repeat split; reflexivity.
Defined.

Lemma touchEnd_over_nothing_witness :
  emitted (touchEndHandler Demo.hitTest Demo.allQuiet
             (Demo.touch E_touchcancel 1%nat 1000 1000))
          (Demo.dragging Demo.allQuiet)
  = [APreventDefault;
     ACall HDragEnd
       (Synthetic {| se_type := E_dragend; se_target := Some 1%nat;
                     se_coords := None; se_getData := None;
                     se_setData := false |})].
Proof.
  apply (touchEnd_over_nothing Demo.hitTest Demo.allQuiet
           (Demo.touch E_touchcancel 1%nat 1000 1000)
           (Demo.dragging Demo.allQuiet)); reflexivity.
Defined.

Lemma touchEnd_drop_then_dragEnd_witness :
  ∃ dropEvent,
    emitted (touchEndHandler Demo.hitTest Demo.allQuiet
               (Demo.touch E_touchend 1%nat 50 50))
            (Demo.dragging Demo.allQuiet)
    = [APreventDefault;
       ACall HDrop (Synthetic dropEvent);
       ACall HDragEnd
         (Synthetic {| se_type := E_dragend;
                       se_target := draggedElement
                                      (session (Demo.dragging Demo.allQuiet));
                       se_coords := None; se_getData := None;
                       se_setData := false |})]
    ∧ se_type dropEvent = E_drop
    ∧ se_target dropEvent = Some 2%nat
    ∧ se_coords dropEvent
      = Some (getEventCoordinates (Demo.touch E_touchend 1%nat 50 50)).
Proof.
  apply (touchEnd_drop_then_dragEnd Demo.hitTest Demo.allQuiet
           (Demo.touch E_touchend 1%nat 50 50) (Demo.dragging Demo.allQuiet)
           2%nat (Demo.quiet 13) (Demo.quiet 14));
    try reflexivity. apply demo_quiet_never_throws.
Defined.

Lemma demo_busyPage_free (l : Listener) :
  l ∈ registrations Demo.allQuiet (setupCalls Demo.busyPage) →
  l ∉ listeners Demo.busyPage.
Proof.
  intros Hl ->%list_elem_of_singleton. revert Hl.
  change (mkListener E_drop (Function 99)
          ∉ registrations Demo.allQuiet (setupCalls Demo.busyPage)).
  compute_done.
Qed.

Lemma setup_then_teardown_restores_witness :
  listeners (removeDragAndDrop (setupDragAndDrop Demo.allQuiet Demo.busyPage))
  = listeners Demo.busyPage
  ∧ _dragHandlers (removeDragAndDrop
                     (setupDragAndDrop Demo.allQuiet Demo.busyPage)) = None.
Proof.
  apply (setup_then_teardown_restores Demo.allQuiet Demo.busyPage).
  apply demo_busyPage_free.
Defined.

Lemma made_tiles_start_a_drag_on_touch_witness :
  closest (document Demo.start) sel_tile 1%nat = Some 1%nat
  ∧ eligible (document Demo.start) (Some 1%nat) = true
  ∧ isDragging (session (touchStartHandler Demo.hitTest Demo.allQuiet
                           (Demo.touch E_touchstart 1%nat 5 5) Demo.start).2)
    = true
  ∧ draggedElement (session (touchStartHandler Demo.hitTest Demo.allQuiet
                               (Demo.touch E_touchstart 1%nat 5 5) Demo.start).2)
    = Some 1%nat.
Proof.
  apply (made_tiles_start_a_drag_on_touch Demo.hitTest Demo.allQuiet
           (Demo.touch E_touchstart 1%nat 5 5) Demo.start 1%nat
           (createTile "0-3" None true "")); try reflexivity.
  - left. by exists "0-3", None, true, "".
  - repeat split; reflexivity.
  - by apply demo_not_within_interactive.
Defined.

(** A fixed wall tile, built with [draggable = false], is picked up by a
    touch all the same. *)
Example fixed_tile_is_picked_up_by_touch :
  draggable (el_node (wallTile 1 true 0)) = false
  ∧ eligible (fun _ => el_node (wallTile 1 true 0)) (Some 0%nat) = true.
Proof. split; reflexivity. Qed.
